(** * cxxd: colourised xxd output

    A shallow embedding of [cxxd.py] and the properties of its line
    tokenizer, palettes and line reassembler.

    Python strings are sequences of code points: a string is a [list N].
    Exceptions are explicit: a function that can raise returns a [result].
    The interpreter's built-ins the program calls ([str.split], [str.strip],
    [int], [re.split], [%d], [deque.rotate], [super]) are modelled in
    [Module Py], each from its documented behaviour. *)

From Stdlib Require Import ZArith NArith Lia Bool DecimalPos.
From stdpp Require Import base list strings.

Local Open Scope N_scope.

(** ** The interpreter's built-ins *)

Module Py.

Inductive exn :=
| ValueError | TypeError | IndexError | AttributeError | NotImplementedError
| OverflowError
| SystemExit (code : Z).

Inductive result (A : Type) :=
| Ok (a : A)
| Raise (e : exn).
Arguments Ok {A} a.
Arguments Raise {A} e.

#[global] Instance result_ret : MRet result := fun _ a => Ok a.
#[global] Instance result_bind : MBind result := fun _ _ k m =>
  match m with Ok a => k a | Raise e => Raise e end.

(** [mapM]: the elements are evaluated left to right and the first exception
    ends the evaluation, as when [str.join] drains a generator. *)
Fixpoint map_result {A B} (f : A → result B) (l : list A) : result (list B) :=
  match l with
  | [] => Ok []
  | a :: l' => b ← f a; bs ← map_result f l'; Ok (b :: bs)
  end.

(** Strings. [lit] turns a literal into its code points. *)
Abbreviation str := (list N) (only parsing).

Definition lit (s : String.string) : str :=
  map Ascii.N_of_ascii (String.list_ascii_of_string s).
Arguments lit s%_string.

Definition LF : N := 10.
Definition ESC : N := 27.

Fixpoint str_eqb (s t : str) : bool :=
  match s, t with
  | [], [] => true
  | c :: s', d :: t' => (c =? d) && str_eqb s' t'
  | _, _ => false
  end.

(** [s.startswith(p)] and the rest of [s] after [p]. *)
Fixpoint strip_prefix (p s : str) : option str :=
  match p with
  | [] => Some s
  | c :: p' =>
      match s with
      | d :: s' => if c =? d then strip_prefix p' s' else None
      | [] => None
      end
  end.

(** [sep in s], by trying every position. *)
Fixpoint contains (sep s : str) : bool :=
  match strip_prefix sep s with
  | Some _ => true
  | None => match s with [] => false | _ :: s' => contains sep s' end
  end.

(** [s.split(sep, 1)] for a non-empty [sep]: the text before the first
    occurrence of [sep] and the text after it, or [s] alone. *)
Fixpoint find_first (sep s : str) : option (str * str) :=
  match strip_prefix sep s with
  | Some rest => Some ([], rest)
  | None =>
      match s with
      | [] => None
      | c :: s' =>
          match find_first sep s' with
          | Some (before, after) => Some (c :: before, after)
          | None => None
          end
      end
  end.

Definition split1 (sep s : str) : list str :=
  match find_first sep s with
  | Some (before, after) => [before; after]
  | None => [s]
  end.

(** [a, b = l]: unpacking into two names. *)
Definition unpack2 (l : list str) : result (str * str) :=
  match l with
  | [a; b] => Ok (a, b)
  | _ => Raise ValueError
  end.

(** [s[:-1]]: all but the last character; the empty string stays empty. *)
Definition drop_last (s : str) : str := removelast s.

(** [str.isspace] of one character (the interpreter's whitespace table). *)
Definition isspace (c : N) : bool :=
  ((0x09 <=? c) && (c <=? 0x0D)) || ((0x1C <=? c) && (c <=? 0x20))
  || (c =? 0x85) || (c =? 0xA0) || (c =? 0x1680)
  || ((0x2000 <=? c) && (c <=? 0x200A))
  || (c =? 0x2028) || (c =? 0x2029) || (c =? 0x202F) || (c =? 0x205F)
  || (c =? 0x3000).

Fixpoint lstrip (space : N → bool) (s : str) : str :=
  match s with
  | c :: s' => if space c then lstrip space s' else s
  | [] => []
  end.

Definition rstrip (space : N → bool) (s : str) : str :=
  rev (lstrip space (rev s)).

(** [s.strip()] *)
Definition strip (s : str) : str := rstrip isspace (lstrip isspace s).

(** *** [int(s, base)]

    The string is first brought to ASCII: a character below 127 is kept,
    other whitespace becomes a space, another decimal digit becomes its
    ASCII digit, and anything else ends the string with a question mark.
    [todecimal] is the interpreter's table of decimal digits outside ASCII;
    it depends on the version of the Unicode database and is a parameter. *)

Section Int.
Variable todecimal : N → option N.

Fixpoint transform_decimal_and_space (s : str) : str :=
  match s with
  | [] => []
  | c :: s' =>
      if c <? 127 then c :: transform_decimal_and_space s'
      else if isspace c then 0x20 :: transform_decimal_and_space s'
      else match todecimal c with
           | Some d => (0x30 + d) :: transform_decimal_and_space s'
           | None => [0x3F]
           end
  end.

Definition to_ascii (s : str) : str :=
  if forallb (λ c, c <? 128) s then s else transform_decimal_and_space s.

(** The C locale's [isspace]. *)
Definition c_isspace (c : N) : bool :=
  ((0x09 <=? c) && (c <=? 0x0D)) || (c =? 0x20).

(** The value of a digit character, 37 when it is none. *)
Definition digit_value (c : N) : Z :=
  if (0x30 <=? c) && (c <=? 0x39) then Z.of_N (c - 0x30)
  else if (0x61 <=? c) && (c <=? 0x7A) then Z.of_N (c - 0x61 + 10)
  else if (0x41 <=? c) && (c <=? 0x5A) then Z.of_N (c - 0x41 + 10)
  else 37%Z.

Definition UNDERSCORE : N := 0x5F.

(** Digits with single underscores between them. [prev_us] says that the
    previous character was an underscore; the result is the value, the
    number of digits read and the rest of the string. *)
Fixpoint scan_digits (base : Z) (prev_us : bool) (acc : Z) (count : nat)
    (s : str) : option (Z * nat * str) :=
  match s with
  | c :: s' =>
      if c =? UNDERSCORE then
        if prev_us then None else scan_digits base true acc count s'
      else if (digit_value c <? base)%Z then
        scan_digits base false (acc * base + digit_value c)%Z (S count) s'
      else if prev_us then None else Some (acc, count, s)
  | [] => if prev_us then None else Some (acc, count, [])
  end.

Definition read_sign (s : str) : Z * str :=
  match s with
  | 0x2B :: s' => (1%Z, s')
  | 0x2D :: s' => ((-1)%Z, s')
  | _ => (1%Z, s)
  end.

(** [0x], [0o] or [0b] in front of the digits when it agrees with the base,
    and one underscore after it. *)
Definition read_base_prefix (base : Z) (s : str) : str :=
  match s with
  | 0x30 :: x :: s' =>
      if ((base =? 16)%Z && ((x =? 0x78) || (x =? 0x58)))
         || ((base =? 8)%Z && ((x =? 0x6F) || (x =? 0x4F)))
         || ((base =? 2)%Z && ((x =? 0x62) || (x =? 0x42)))
      then match s' with
           | c :: s'' => if c =? UNDERSCORE then s'' else s'
           | [] => s'
           end
      else s
  | _ => s
  end.

Definition long_from_string (base : Z) (s : str) : option Z :=
  let s := lstrip c_isspace s in
  let '(sign, s) := read_sign s in
  let s := read_base_prefix base s in
  match s with
  | c :: _ =>
      if c =? UNDERSCORE then None
      else
        match scan_digits base false 0%Z 0%nat s with
        | Some (v, count, rest) =>
            match count, lstrip c_isspace rest with
            | S _, [] => Some (sign * v)%Z
            | _, _ => None
            end
        | None => None
        end
  | [] => None
  end.

(** [int(s, base)] for a base from 2 to 36. *)
Definition int (s : str) (base : Z) : result Z :=
  match long_from_string base (to_ascii s) with
  | Some v => Ok v
  | None => Raise ValueError
  end.

End Int.

(** *** [%d] *)

Fixpoint uint_digits (u : Decimal.uint) : str :=
  match u with
  | Decimal.Nil => []
  | Decimal.D0 u => 0x30 :: uint_digits u
  | Decimal.D1 u => 0x31 :: uint_digits u
  | Decimal.D2 u => 0x32 :: uint_digits u
  | Decimal.D3 u => 0x33 :: uint_digits u
  | Decimal.D4 u => 0x34 :: uint_digits u
  | Decimal.D5 u => 0x35 :: uint_digits u
  | Decimal.D6 u => 0x36 :: uint_digits u
  | Decimal.D7 u => 0x37 :: uint_digits u
  | Decimal.D8 u => 0x38 :: uint_digits u
  | Decimal.D9 u => 0x39 :: uint_digits u
  end.

Definition format_d (z : Z) : str :=
  match Z.to_int z with
  | Decimal.Pos u => uint_digits u
  | Decimal.Neg u => 0x2D :: uint_digits u
  end.

(** *** [re.split] with one capturing group of a fixed width

    The two patterns of the program are a character class repeated a fixed
    number of times inside one capturing group. The scan goes left to right;
    where the next [width] characters are all in the class they form a
    token, otherwise the character joins the separator. The result is
    separator, token, separator, ..., separator. *)

Record pattern := { cls : N → bool; width : nat }.

Fixpoint match_here (cls : N → bool) (n : nat) (s : str) : option (str * str) :=
  match n with
  | O => Some ([], s)
  | S n' =>
      match s with
      | c :: s' =>
          if cls c then
            match match_here cls n' s' with
            | Some (tok, rest) => Some (c :: tok, rest)
            | None => None
            end
          else None
      | [] => None
      end
  end.

Fixpoint re_split_from (fuel : nat) (p : pattern) (sep s : str) : list str :=
  match s with
  | [] => [sep]
  | c :: s' =>
      match fuel with
      | O => []
      | S fuel' =>
          match match_here (cls p) (width p) s with
          | Some (tok, rest) => sep :: tok :: re_split_from fuel' p [] rest
          | None => re_split_from fuel' p (sep ++ [c]) s'
          end
      end
  end.

(** One unit of fuel per character is enough ([re_split_from_fuel]). *)
Definition re_split (p : pattern) (s : str) : list str :=
  re_split_from (length s) p [] s.

(** *** [collections.deque]

    [d.rotate(n)] rotates [n] steps to the right, to the left when [n] is
    negative; one step to the right is [d.appendleft(d.pop())] and one step
    to the left is [d.append(d.popleft())]. The interpreter takes the number
    of steps as a C [ssize_t] (64 bits): a number outside its range raises
    [OverflowError]. *)

Definition rotate_right1 (d : list Z) : list Z :=
  match d with
  | [] => []
  | x :: d' => List.last d x :: removelast d
  end.

Definition rotate_left1 (d : list Z) : list Z :=
  match d with
  | [] => []
  | x :: d' => d' ++ [x]
  end.

Definition deque_rotate_steps (n : Z) (d : list Z) : list Z :=
  if (0 <=? n)%Z then Nat.iter (Z.to_nat n) rotate_right1 d
  else Nat.iter (Z.to_nat (- n)) rotate_left1 d.

Definition PY_SSIZE_T_MAX : Z := 2 ^ 63 - 1.
Definition PY_SSIZE_T_MIN : Z := - 2 ^ 63.

Definition ssize_ok (n : Z) : bool :=
  (PY_SSIZE_T_MIN <=? n)%Z && (n <=? PY_SSIZE_T_MAX)%Z.

Definition deque_rotate (n : Z) (d : list Z) : result (list Z) :=
  if ssize_ok n then Ok (deque_rotate_steps n d) else Raise OverflowError.

(** [d[i]]: a negative index counts from the end; an index outside the
    deque, however large, raises [IndexError]. *)
Definition deque_getitem (d : list Z) (i : Z) : result Z :=
  let n := Z.of_nat (length d) in
  let j := if (i <? 0)%Z then (i + n)%Z else i in
  if (0 <=? j)%Z && (j <? n)%Z then
    match d !! Z.to_nat j with
    | Some x => Ok x
    | None => Raise IndexError
    end
  else Raise IndexError.

(** *** Floating point

    [float(a)] of an integer: exact below 2^53 in size; above, the nearest
    number with 53 significant bits, halfway cases to the even one, and
    [OverflowError] when that number is 2^1024 or more. The result is given
    as the integer the floating-point number is. *)

Definition round_half_even (n shift : Z) : Z :=
  let q := (n / 2 ^ shift)%Z in
  let r := (n `mod` 2 ^ shift)%Z in
  let half := (2 ^ (shift - 1))%Z in
  if (half <? r)%Z || ((r =? half)%Z && Z.odd q) then (q + 1)%Z else q.

Definition float_of_int (a : Z) : result Z :=
  let n := Z.abs a in
  let e := Z.log2 n in
  if (e <? 53)%Z then Ok a
  else
    let shift := (e - 52)%Z in
    let v := (round_half_even n shift * 2 ^ shift)%Z in
    if (2 ^ 1024 <=? v)%Z then Raise OverflowError else Ok (Z.sgn a * v)%Z.

End Py.

Import Py.

(** ** The program *)

(** [colorize(s, vt100_index)]: the text between the escape sequence that
    selects colour [vt100_index] of the 256-colour table and the sequence
    that resets it. [%d] wants a number: [None] raises [TypeError]. *)

Inductive pyval :=
| PyInt (z : Z)
| PyNone.

Definition color_intro : str := Eval cbv in ESC :: lit "[38;5;".
Definition color_reset : str := Eval cbv in ESC :: lit "[0m".
Definition LETTER_m : N := 0x6D.

Definition colorize (s : str) (vt100_index : pyval) : result str :=
  match vt100_index with
  | PyInt i => Ok (color_intro ++ format_d i ++ [LETTER_m] ++ s ++ color_reset)
  | PyNone => Raise TypeError
  end.

(** *** [class XXDParser] *)

Definition null_color : Z := 59.
Definition address_separator : str := Eval cbv in lit ": ".
Definition hex_separator : str := Eval cbv in lit "  ".
Definition pixel_char : str := [0x25FC].

Definition is_bin_digit (c : N) : bool := (c =? 0x30) || (c =? 0x31).
Definition is_hex_digit (c : N) : bool :=
  ((0x41 <=? c) && (c <=? 0x46)) || ((0x61 <=? c) && (c <=? 0x66))
  || ((0x30 <=? c) && (c <=? 0x39)).

Definition regex_bin : pattern := {| cls := is_bin_digit; width := 8 |}.
Definition regex_hex : pattern := {| cls := is_hex_digit; width := 2 |}.

(** The classes of the module, their base class and their method
    resolution order. *)
Inductive class := object | XXDParser | GradientPalette | AsciiPalette.

#[global] Instance class_eq_dec : EqDecision class.
Proof. solve_decision. Defined.

Definition base_class (c : class) : option class :=
  match c with
  | object => None
  | XXDParser => Some object
  | GradientPalette => Some XXDParser
  | AsciiPalette => Some XXDParser
  end.

Definition mro (c : class) : list class :=
  match c with
  | object => [object]
  | XXDParser => [XXDParser; object]
  | GradientPalette => [GradientPalette; XXDParser; object]
  | AsciiPalette => [AsciiPalette; XXDParser; object]
  end.

(** An instance: its class and its attributes, [None] until assigned. *)
Record instance := {
  ob_type : class;
  attr_base : option Z;
  attr_regex : option pattern;
  attr_palette : option (list Z);
}.

Definition getattr {A} (a : option A) : result A :=
  match a with
  | Some v => Ok v
  | None => Raise AttributeError
  end.

(** [object.__new__(cls)] *)
Definition new (c : class) : instance :=
  {| ob_type := c; attr_base := None; attr_regex := None; attr_palette := None |}.

(** [super(typ, self)]: [self] has to be an instance of [typ]; the result
    stands for the class after [typ] in the method resolution order of the
    class of [self]. *)
Fixpoint class_after (typ : class) (l : list class) : option class :=
  match l with
  | c :: l' =>
      if decide (c = typ) then head l' else class_after typ l'
  | [] => None
  end.

Definition super (typ : class) (self : instance) : result class :=
  if decide (typ ∈ mro (ob_type self)) then
    match class_after typ (mro (ob_type self)) with
    | Some c => Ok c
    | None => Raise AttributeError
    end
  else Raise TypeError.

(** [XXDParser.__init__(self, binary)] *)
Definition XXDParser_init (self : instance) (binary : bool) : result instance :=
  Ok {| ob_type := ob_type self;
        attr_base := Some (if binary then 2 else 16)%Z;
        attr_regex := Some (if binary then regex_bin else regex_hex);
        attr_palette := attr_palette self |}.

(** [c.__init__(self, binary)] for the class [c] that [super] gave:
    [object.__init__] takes no argument. *)
Definition init_of (c : class) (self : instance) (binary : bool) : result instance :=
  match c with
  | XXDParser => XXDParser_init self binary
  | _ => Raise TypeError
  end.

Definition set_palette (self : instance) (p : list Z) : instance :=
  {| ob_type := ob_type self; attr_base := attr_base self;
     attr_regex := attr_regex self; attr_palette := Some p |}.

(** *** [class GradientPalette] *)

Definition base_palette : list Z :=
  [131; 167; 203; 209; 173; 137; 179; 221; 227; 191; 149; 120; 78; 79; 116;
   117; 74; 75; 68; 105; 62; 98; 97; 134; 176; 207; 164; 163; 126; 132;
   168]%Z.

(** [GradientPalette.rotate(num)]: a copy of the base palette, rotated; the
    class attribute itself is never changed. *)
Definition GradientPalette_rotate (num : Z) : result (list Z) :=
  deque_rotate (- num) base_palette.

Definition GradientPalette_init (self : instance) (binary : bool)
    (rotate_index : Z) : result instance :=
  c ← super GradientPalette self;
  self ← init_of c self binary;
  palette ← GradientPalette_rotate rotate_index;
  Ok (set_palette self palette).

(** [int(len(self.palette) * byte / 256.0)]: the product is an integer; the
    division turns it into a floating-point number, which raises
    [OverflowError] when the product is too large; dividing by a power of
    two is exact, and [int] truncates towards zero. *)
Definition GradientPalette_color_picker (self : instance) (byte : Z) : result pyval :=
  if (byte =? 0)%Z then Ok (PyInt null_color)
  else
    palette ← getattr (attr_palette self);
    product ← float_of_int (Z.of_nat (length palette) * byte);
    let index := (product ÷ 256)%Z in
    c ← deque_getitem palette index;
    Ok (PyInt c).

(** *** [class AsciiPalette] *)

Definition AsciiPalette_init (self : instance) (binary : bool)
    (rotate_index : Z) : result instance :=
  c ← super GradientPalette self;
  self ← init_of c self binary;
  palette ← GradientPalette_rotate rotate_index;
  Ok (set_palette self palette).

(** [str.isalpha] and [str.isdigit] of [chr(byte)] for a printable ASCII
    [byte]. *)
Definition chr_isalpha (byte : Z) : bool :=
  ((0x41 <=? byte) && (byte <=? 0x5A))%Z || ((0x61 <=? byte) && (byte <=? 0x7A))%Z.
Definition chr_isdigit (byte : Z) : bool := ((0x30 <=? byte) && (byte <=? 0x39))%Z.

(** Every class of printable character, the newline and the carriage return
    end in a bare [return], which gives [None]. *)
Definition AsciiPalette_color_picker (self : instance) (byte : Z) : result pyval :=
  if (0x20 <=? byte)%Z && (byte <? 0x7F)%Z then
    if chr_isalpha byte then Ok PyNone
    else if chr_isdigit byte then Ok PyNone
    else if (byte =? 0x20)%Z then Ok PyNone
    else if (byte =? 0x09)%Z then Ok PyNone
    else Ok PyNone
  else if (byte =? 0x0A)%Z then Ok PyNone
  else if (byte =? 0x0D)%Z then Ok PyNone
  else Ok (PyInt null_color).

(** [cls(binary, rotate_index)]: a new instance, then [__init__]. *)
Definition construct (c : class) (binary : bool) (rotate_index : Z) : result instance :=
  match c with
  | GradientPalette => GradientPalette_init (new GradientPalette) binary rotate_index
  | AsciiPalette => AsciiPalette_init (new AsciiPalette) binary rotate_index
  | _ => Raise TypeError
  end.

(** [self.color_picker(byte)], by the class of [self]; the method of
    [XXDParser] is abstract. *)
Definition color_picker (self : instance) (byte : Z) : result pyval :=
  match ob_type self with
  | GradientPalette => GradientPalette_color_picker self byte
  | AsciiPalette => AsciiPalette_color_picker self byte
  | XXDParser => Raise NotImplementedError
  | object => Raise AttributeError
  end.

Section Program.
Variable todecimal : N → option N.

(** [XXDParser.parse(self, hex_data, pixelate)] *)
Definition map_color (self : instance) (pixelate : bool) (byte : str) : result str :=
  match strip byte with
  | [] => Ok byte
  | _ =>
      let to_show := if pixelate then pixel_char else byte in
      base ← getattr (attr_base self);
      n ← int todecimal byte base;
      index ← color_picker self n;
      colorize to_show index
  end.

Definition parse (self : instance) (hex_data : str) (pixelate : bool) : result str :=
  regex ← getattr (attr_regex self);
  let byte_data := re_split regex hex_data in
  colored_data ← map_result (map_color self pixelate) byte_data;
  Ok (concat colored_data).

(** [format_line(line, colorizer)] *)
Definition elision_marker : str := Eval cbv in lit "*" ++ [LF].

Definition format_line (line : str) (colorizer : str → result str) : result str :=
  if str_eqb line elision_marker then Ok line
  else
    '(address, hex_ascii) ← unpack2 (split1 address_separator line);
    '(hex_data, ascii_data) ← unpack2 (split1 hex_separator hex_ascii);
    hex_data ← colorizer hex_data;
    Ok (address ++ address_separator ++ hex_data ++ hex_separator
        ++ drop_last ascii_data).

(** The loop of [main]: every line of the dump goes through [format_line]
    and [print] writes the result and a newline. The state is the text
    written so far; an exception ends the loop. *)
Definition print (stdout s : str) : str := stdout ++ s ++ [LF].

Fixpoint main_loop (colorizer : str → result str) (lines : list str)
    (stdout : str) : str * result unit :=
  match lines with
  | [] => (stdout, Ok tt)
  | line :: lines' =>
      match format_line line colorizer with
      | Ok s => main_loop colorizer lines' (print stdout s)
      | Raise e => (stdout, Raise e)
      end
  end.

(** [main] with the options [--rotate] and [--pixelate] already read, the
    output of [xxd] as its decoded lines and the exit code of [xxd]. After
    the loop an exit code that is not zero becomes the exit code of the
    program: [exit] raises [SystemExit]. *)
Definition main (rotate : Z) (pixelate : bool) (xxd_stdout : list str)
    (exitcode : Z) : str * result unit :=
  match construct GradientPalette false rotate with
  | Ok parser =>
      match main_loop (λ line, parse parser line pixelate) xxd_stdout [] with
      | (stdout, Ok _) =>
          if (exitcode =? 0)%Z then (stdout, Ok tt)
          else (stdout, Raise (SystemExit exitcode))
      | (stdout, Raise e) => (stdout, Raise e)
      end
  | Raise e => ([], Raise e)
  end.

End Program.

(** ** The vocabulary of the properties *)

(** A record line: an address, the address separator, a byte field, the
    separator of the byte field and the text field, a text field. *)
Definition record_line (address hex_data ascii_data : str) : str :=
  address ++ address_separator ++ hex_data ++ hex_separator ++ ascii_data.

(** The three columns of a line, as the two splits of [format_line] find
    them: the address ends at the first address separator and the byte
    field at the first separator of the text field after it. *)
Definition columns (line : str) : option (str * str * str) :=
  match split1 address_separator line with
  | [address; hex_ascii] =>
      match split1 hex_separator hex_ascii with
      | [hex_data; ascii_data] => Some (address, hex_data, ascii_data)
      | _ => None
      end
  | _ => None
  end.

(** A line is well formed when it has the address separator and, somewhere
    after it, the separator of the text field. *)
Fixpoint well_formed (line : str) : bool :=
  match strip_prefix address_separator line with
  | Some rest => contains hex_separator rest
  | None => false
  end
  || match line with [] => false | _ :: line' => well_formed line' end.

Definition no_escape (s : str) : bool := forallb (λ c, negb (c =? ESC)) s.

(** Removing the colour sequences: the sequence that selects a colour of
    the 256-colour table (the introducer, one or more decimal digits, the
    letter m) and the sequence that resets it. *)
Definition is_digit (c : N) : bool := (0x30 <=? c) && (c <=? 0x39).

Definition marker_at (s : str) : option str :=
  match strip_prefix color_reset s with
  | Some rest => Some rest
  | None =>
      match strip_prefix color_intro s with
      | Some (d :: rest) =>
          if is_digit d then
            match lstrip is_digit rest with
            | c :: rest' => if c =? LETTER_m then Some rest' else None
            | [] => None
            end
          else None
      | _ => None
      end
  end.

Fixpoint strip_markers_from (fuel : nat) (s : str) : str :=
  match s with
  | [] => []
  | c :: s' =>
      match fuel with
      | O => []
      | S fuel' =>
          match marker_at s with
          | Some rest => strip_markers_from fuel' rest
          | None => c :: strip_markers_from fuel' s'
          end
      end
  end.

Definition strip_markers (s : str) : str := strip_markers_from (length s) s.

(** [colored_from plain colored]: [colored] is [plain] with colour
    sequences (for colours of the 256-colour table) and reset sequences
    put in, and nothing else changed. *)
Inductive colored_from : str → str → Prop :=
| colored_nil : colored_from [] []
| colored_char c plain colored :
    colored_from plain colored → colored_from (c :: plain) (c :: colored)
| colored_select i plain colored :
    (0 ≤ i ≤ 255)%Z → colored_from plain colored →
    colored_from plain (color_intro ++ format_d i ++ [LETTER_m] ++ colored)
| colored_reset plain colored :
    colored_from plain colored → colored_from plain (color_reset ++ colored).

(** The byte field of a dump in hexadecimal: tokens of two hexadecimal
    digits and single spaces, in any arrangement. The layout of [xxd]
    (tokens in groups, one space between groups, spaces before and after)
    is of this form. *)
Fixpoint hex_field (s : str) : bool :=
  match s with
  | [] => true
  | c1 :: s' =>
      if c1 =? 0x20 then hex_field s'
      else
        match s' with
        | c2 :: s'' => is_hex_digit c1 && is_hex_digit c2 && hex_field s''
        | [] => false
        end
  end.

(** The fragments of such a byte field: runs of spaces and tokens. *)
Definition fragment_ok (fragment : str) : Prop :=
  forallb (λ c, c =? 0x20) fragment = true
  ∨ ∃ c1 c2, fragment = [c1; c2] ∧ is_hex_digit c1 = true ∧ is_hex_digit c2 = true.

(** The table of the palette for the rotation [num]
    ([GradientPalette_rotate_Ok]), and the rotations the deque accepts. *)
Definition rotated_table (num : Z) : list Z :=
  deque_rotate_steps (- num) base_palette.

Definition rotation_ok (num : Z) : bool := ssize_ok (- num).

(** From this size on, an integer has no floating-point value. *)
Definition float_overflow : Z := 2 ^ 1024 - 2 ^ 970.

(** The instance that [GradientPalette(binary, rotate_index)] gives when
    the rotation is accepted ([construct_GradientPalette]). *)
Definition gradient_instance (binary : bool) (rotate_index : Z) : instance :=
  {| ob_type := GradientPalette;
     attr_base := Some (if binary then 2 else 16)%Z;
     attr_regex := Some (if binary then regex_bin else regex_hex);
     attr_palette := Some (rotated_table rotate_index) |}.

(** A table of decimal digits with no entry outside ASCII, for the
    evaluation of [int] on ASCII text. *)
Definition no_decimal : N → option N := λ _, None.

(** An index brought into the range of a table of [n] entries. *)
Definition clamp (n i : Z) : Z := Z.max 0 (Z.min (n - 1) i).

(** The entry of the rotated table at [i]: the entry of the base table
    [r] places further, around the end. *)
Definition rotated_entry (r : Z) (i : nat) : option Z :=
  base_palette !! Z.to_nat ((Z.of_nat i + r) `mod` 31).

(** The fragments of a split by position: the separators are the first,
    third, ... fragments and the tokens the second, fourth, ... *)
Fixpoint separators (fragments : list str) : list str :=
  match fragments with
  | [] => []
  | sep :: rest =>
      sep :: match rest with [] => [] | _ :: rest' => separators rest' end
  end.

Fixpoint tokens (fragments : list str) : list str :=
  match fragments with
  | [] => []
  | _ :: rest =>
      match rest with [] => [] | tok :: rest' => tok :: tokens rest' end
  end.

(** What [--pixelate] shows of a fragment: the block glyph for a fragment
    that is not blank. *)
Definition pixelated (fragment : str) : str :=
  match strip fragment with
  | [] => fragment
  | _ => pixel_char
  end.

(** The byte field of a dump in binary ([xxd -b]): tokens of eight binary
    digits and single spaces, in any arrangement. *)
Fixpoint bin_field (s : str) : bool :=
  match s with
  | [] => true
  | c1 :: s' =>
      if c1 =? 0x20 then bin_field s'
      else
        match s' with
        | c2 :: c3 :: c4 :: c5 :: c6 :: c7 :: c8 :: s'' =>
            forallb is_bin_digit [c1; c2; c3; c4; c5; c6; c7; c8]
            && bin_field s''
        | _ => false
        end
  end.

(** The characters a numeral that [int] accepts in [base] is made of:
    whitespace, a sign, the underscore, the digits of the base and the
    letter of the prefix of the base. *)
Definition prefix_letter (base : Z) (c : N) : bool :=
  ((base =? 16)%Z && ((c =? 0x78) || (c =? 0x58)))
  || ((base =? 8)%Z && ((c =? 0x6F) || (c =? 0x4F)))
  || ((base =? 2)%Z && ((c =? 0x62) || (c =? 0x42))).

Definition numeral_char (base : Z) (c : N) : bool :=
  c_isspace c || (c =? 0x2B) || (c =? 0x2D) || (c =? UNDERSCORE)
  || (digit_value c <? base)%Z || (c =? 0x30) || prefix_letter base c.

(** An ASCII character that is no whitespace and no character of a numeral:
    a colon, a letter after f, a control character, ... *)
Definition junk (base : Z) (c : N) : bool :=
  (c <? 127) && negb (isspace c) && negb (numeral_char base c).

(** The bytes for which [AsciiPalette.color_picker] ends in a bare
    [return]: the printable characters, the newline and the carriage
    return. *)
Definition no_colour_byte (byte : Z) : bool :=
  ((0x20 <=? byte) && (byte <? 0x7F))%Z || (byte =? 0x0A)%Z || (byte =? 0x0D)%Z.


(** What [print] adds to the output for the results [outs]. *)
Definition printed (outs : list str) : str :=
  concat (map (λ out, out ++ [LF]) outs).

(** ** Classes *)

Lemma mro_base_class (c b : class) :
  base_class c = Some b → mro c = c :: mro b.
Proof. destruct c; intros [= <-]; reflexivity. Qed.

(** ** Strings *)

Lemma str_eqb_eq (s t : str) : str_eqb s t = true ↔ s = t.
Proof.
  revert t. induction s as [|c s IH]; intros [|d t]; simpl; try (split; [done | done]).
  rewrite andb_true_iff, N.eqb_eq, IH. split; [intros [-> ->]; done | intros [= -> ->]; done].
Qed.

Lemma strip_prefix_Some (p s rest : str) :
  strip_prefix p s = Some rest ↔ s = p ++ rest.
Proof.
  revert s. induction p as [|c p IH]; intros s; simpl.
  - split; [intros [= ->]; done | intros ->; done].
  - destruct s as [|d s]; [split; done |].
    destruct (N.eqb_spec c d) as [->|Hne].
    + rewrite IH. split; [intros ->; done | intros [= ->]; done].
    + split; [done | intros [= -> _]; done].
Qed.

Lemma strip_prefix_app (p rest : str) : strip_prefix p (p ++ rest) = Some rest.
Proof. by apply strip_prefix_Some. Qed.

Lemma contains_true (sep s : str) :
  contains sep s = true ↔ ∃ a b, s = a ++ sep ++ b.
Proof.
  induction s as [|c s IH]; simpl.
  - destruct (strip_prefix sep []) as [rest|] eqn:E.
    + apply strip_prefix_Some in E. split; [intros _; by exists [], rest | done].
    + split; [done |]. intros (a & b & H).
      destruct a; simpl in H; [| done].
      apply strip_prefix_Some in H. congruence.
  - destruct (strip_prefix sep (c :: s)) as [rest|] eqn:E.
    + apply strip_prefix_Some in E. split; [intros _; by exists [], rest | done].
    + rewrite IH. split.
      * intros (a & b & ->). by exists (c :: a), b.
      * intros (a & b & H). destruct a as [|c' a]; simpl in H.
        -- apply strip_prefix_Some in H. congruence.
        -- injection H as -> ->. by exists a, b.
Qed.

Lemma find_first_Some (sep s before after : str) :
  find_first sep s = Some (before, after) → s = before ++ sep ++ after.
Proof.
  revert before. induction s as [|c s IH]; intros before; simpl.
  - destruct (strip_prefix sep []) as [rest|] eqn:E; [| done].
    intros [= <- <-]. by apply strip_prefix_Some in E.
  - destruct (strip_prefix sep (c :: s)) as [rest|] eqn:E.
    + intros [= <- <-]. by apply strip_prefix_Some in E.
    + destruct (find_first sep s) as [[a b]|]; [| done].
      intros [= <- <-]. by rewrite (IH a).
Qed.

Lemma find_first_contains (sep s : str) :
  is_Some (find_first sep s) ↔ contains sep s = true.
Proof.
  induction s as [|c s IH]; simpl.
  - destruct (strip_prefix sep []); split; intros H; try done; by destruct H.
  - destruct (strip_prefix sep (c :: s)); [split; done |].
    rewrite <- IH. destruct (find_first sep s) as [[a b]|]; split; intros H; try done;
      by destruct H.
Qed.

Lemma well_formed_true (line : str) :
  well_formed line = true ↔
  ∃ address hex_data ascii_data, line = record_line address hex_data ascii_data.
Proof.
  unfold record_line. induction line as [|c line IH].
  - simpl. split; [done |]. intros (a & h & t & H). by destruct a.
  - cbn [well_formed]. rewrite orb_true_iff, IH. split.
    + intros [H | (a & h & t & ->)].
      * destruct (strip_prefix address_separator (c :: line)) as [rest|] eqn:E; [| done].
        apply strip_prefix_Some in E. apply contains_true in H as (h & t & ->).
        exists [], h, t. done.
      * by exists (c :: a), h, t.
    + intros (a & h & t & H). destruct a as [|c' a].
      * left. rewrite app_nil_l in H. rewrite H, strip_prefix_app.
        apply contains_true. by exists h, t.
      * right. rewrite <- app_comm_cons in H. injection H as -> ->.
        by exists a, h, t.
Qed.

(** ** The tokenizer *)

Lemma match_here_Some (cls : N → bool) (n : nat) (s tok rest : str) :
  match_here cls n s = Some (tok, rest) →
  s = tok ++ rest ∧ length tok = n ∧ forallb cls tok = true.
Proof.
  revert s tok. induction n as [|n IH]; intros s tok; simpl.
  - intros [= <- <-]. done.
  - destruct s as [|c s]; [done |].
    destruct (cls c) eqn:Hc; [| done].
    destruct (match_here cls n s) as [[t r]|] eqn:E; [| done].
    intros [= <- <-]. destruct (IH _ _ E) as (-> & <- & Ht).
    simpl. by rewrite Hc, Ht.
Qed.

(** The fuel of the scan: one unit for every character is enough, and more
    changes nothing. *)
Lemma re_split_from_fuel (p : pattern) (fuel1 fuel2 : nat) (sep s : str) :
  (0 < width p)%nat → (length s ≤ fuel1)%nat → (length s ≤ fuel2)%nat →
  re_split_from fuel1 p sep s = re_split_from fuel2 p sep s.
Proof.
  intros Hw. revert fuel2 sep s.
  induction fuel1 as [|fuel1 IH]; intros fuel2 sep s H1 H2.
  - destruct s; [by destruct fuel2 | simpl in H1; lia].
  - destruct s as [|c s]; [by destruct fuel2 |].
    destruct fuel2 as [|fuel2]; [simpl in H2; lia |].
    cbn [re_split_from].
    destruct (match_here (cls p) (width p) (c :: s)) as [[tok rest]|] eqn:E.
    + apply match_here_Some in E as (Hs & Hn & _).
      apply (f_equal length) in Hs. rewrite length_app in Hs.
      do 2 f_equal. simpl in *. apply IH; lia.
    + simpl in *. apply IH; lia.
Qed.

Lemma re_split_from_concat (p : pattern) (fuel : nat) (sep s : str) :
  (0 < width p)%nat → (length s ≤ fuel)%nat →
  concat (re_split_from fuel p sep s) = sep ++ s.
Proof.
  intros Hw. revert sep s. induction fuel as [|fuel IH]; intros sep s Hlen.
  - destruct s; [simpl; by rewrite !app_nil_r | simpl in Hlen; lia].
  - destruct s as [|c s]; [simpl; by rewrite !app_nil_r |].
    cbn [re_split_from].
    destruct (match_here (cls p) (width p) (c :: s)) as [[tok rest]|] eqn:E.
    + apply match_here_Some in E as (Hs & Hn & _).
      cbn [concat]. rewrite IH.
      * by rewrite Hs.
      * apply (f_equal length) in Hs. rewrite length_app in Hs.
        simpl in Hs, Hlen. lia.
    + rewrite IH; [by rewrite <- app_assoc | simpl in Hlen; lia].
Qed.

Lemma re_split_concat (p : pattern) (s : str) :
  (0 < width p)%nat → concat (re_split p s) = s.
Proof. intros Hw. unfold re_split. by rewrite re_split_from_concat. Qed.

(** C2. The tokenizer is lossless: for every input string and for each of
    the two token patterns (two hexadecimal digits, eight binary digits),
    the fragments that [re.split] returns, joined in order, are the input
    string. *)
Theorem tokenizer_lossless (s : str) :
  concat (re_split regex_hex s) = s ∧ concat (re_split regex_bin s) = s.
Proof. split; apply re_split_concat; simpl; lia. Qed.

(** ** The line reassembler *)

Lemma columns_record_line (line address hex_data ascii_data : str) :
  columns line = Some (address, hex_data, ascii_data) →
  line = record_line address hex_data ascii_data.
Proof.
  unfold columns, split1, record_line.
  destruct (find_first address_separator line) as [[a rest]|] eqn:E1; [| done].
  destruct (find_first hex_separator rest) as [[h t]|] eqn:E2; [| done].
  intros [= <- <- <-].
  apply find_first_Some in E1, E2. by rewrite E1, E2.
Qed.

Lemma find_first_minimal (sep s before after a b : str) :
  find_first sep s = Some (before, after) → s = a ++ sep ++ b →
  (length before ≤ length a)%nat.
Proof.
  revert before a. induction s as [|c s IH]; intros before a; simpl.
  - destruct (strip_prefix sep []); [| done]. intros [= <- _] _. simpl. lia.
  - destruct (strip_prefix sep (c :: s)) as [r|] eqn:Ep.
    + intros [= <- _] _. simpl. lia.
    + destruct (find_first sep s) as [[x y]|] eqn:E; [| done].
      intros [= <- <-] Hs. destruct a as [|c0 a].
      * rewrite app_nil_l in Hs. rewrite Hs, strip_prefix_app in Ep. done.
      * rewrite <- app_comm_cons in Hs. injection Hs as _ Hs.
        specialize (IH x a eq_refl Hs). simpl. lia.
Qed.

(** What follows any occurrence of the separator ends what follows the
    first one. *)
Lemma find_first_suffix (sep s before after a b : str) :
  find_first sep s = Some (before, after) → s = a ++ sep ++ b →
  ∃ x, after = x ++ b.
Proof.
  intros Hf Hs. pose proof (find_first_minimal _ _ _ _ _ _ Hf Hs) as Hle.
  apply find_first_Some in Hf.
  exists (take (length a - length before) after).
  rewrite <- (take_drop (length a - length before) after) at 1. f_equal.
  assert (Hafter : after = drop (length (before ++ sep)) s)
    by (rewrite Hf, app_assoc; by rewrite drop_app_length).
  rewrite Hafter, drop_drop, Hs, app_assoc.
  replace (length (before ++ sep) + (length a - length before))%nat
    with (length (a ++ sep)) by (rewrite !length_app; lia).
  by rewrite drop_app_length.
Qed.

Lemma columns_well_formed (line : str) :
  is_Some (columns line) ↔ well_formed line = true.
Proof.
  split.
  - intros [[[a h] t] H]. apply columns_record_line in H.
    apply well_formed_true. by exists a, h, t.
  - intros H. apply well_formed_true in H as (a & h & t & Hline).
    unfold columns, split1.
    destruct (find_first address_separator line) as [[a' rest]|] eqn:E1.
    + destruct (find_first hex_separator rest) as [[h' t']|] eqn:E2; [done |].
      exfalso.
      assert (Hno : ¬ is_Some (find_first hex_separator rest))
        by (rewrite E2; by intros [? ?]).
      apply Hno, find_first_contains, contains_true.
      destruct (find_first_suffix _ _ _ _ _ _ E1 Hline) as [x ->].
      exists (x ++ h), t. by rewrite <- app_assoc.
    + exfalso.
      assert (Hno : ¬ is_Some (find_first address_separator line))
        by (rewrite E1; by intros [? ?]).
      apply Hno, find_first_contains, contains_true.
      exists a, (h ++ hex_separator ++ t). exact Hline.
Qed.

Lemma well_formed_not_marker (line : str) :
  well_formed line = true → str_eqb line elision_marker = false.
Proof.
  intros H. destruct (str_eqb line elision_marker) eqn:E; [| done].
  apply str_eqb_eq in E. subst line. vm_compute in H. done.
Qed.

Lemma format_line_columns (line address hex_data ascii_data : str)
    (colorizer : str → result str) :
  columns line = Some (address, hex_data, ascii_data) →
  format_line line colorizer =
    colored ← colorizer hex_data;
    Ok (address ++ address_separator ++ colored ++ hex_separator
        ++ drop_last ascii_data).
Proof.
  intros Hc. unfold format_line.
  rewrite well_formed_not_marker
    by (apply columns_well_formed; by rewrite Hc).
  unfold columns in Hc.
  destruct (split1 address_separator line) as [|a [|rest [|? ?]]]; try done.
  cbn [unpack2 mbind result_bind].
  destruct (split1 hex_separator rest) as [|h [|t [|? ?]]]; try done.
  by injection Hc as -> -> ->.
Qed.

Lemma format_line_malformed (line : str) (colorizer : str → result str) :
  str_eqb line elision_marker = false → columns line = None →
  format_line line colorizer = Raise ValueError.
Proof.
  intros Hm Hc. unfold format_line. rewrite Hm.
  unfold columns in Hc. unfold split1 in *.
  destruct (find_first address_separator line) as [[a rest]|]; [| done].
  cbn [unpack2 mbind result_bind].
  destruct (find_first hex_separator rest) as [[h t]|]; done.
Qed.

(** ** The rotation of the palette *)

Lemma rotate_left1_length (d : list Z) : length (rotate_left1 d) = length d.
Proof. destruct d; simpl; [done |]. rewrite length_app. simpl. lia. Qed.

Lemma rotate_right1_left1 (d : list Z) : rotate_right1 (rotate_left1 d) = d.
Proof.
  destruct d as [|x d]; [done |]. unfold rotate_left1.
  destruct (d ++ [x]) as [|y l] eqn:E; [by destruct d |].
  unfold rotate_right1. rewrite <- E.
  by rewrite last_last, removelast_last.
Qed.

Lemma iter_rotate_left1_length (j : nat) (d : list Z) :
  length (Nat.iter j rotate_left1 d) = length d.
Proof. induction j; simpl; [done |]. by rewrite rotate_left1_length. Qed.

Lemma iter_rotate_left1_drop_take (m : nat) (d : list Z) :
  (m ≤ length d)%nat → Nat.iter m rotate_left1 d = drop m d ++ take m d.
Proof.
  induction m as [|m IH]; intros Hm.
  - simpl. by rewrite drop_0, app_nil_r.
  - simpl. rewrite IH by lia.
    destruct (lookup_lt_is_Some_2 d m ltac:(lia)) as [x Hx].
    rewrite (drop_S _ _ _ Hx), (take_S_r _ _ _ Hx). simpl.
    by rewrite <- app_assoc.
Qed.

Lemma iter_rotate_left1_full (q : nat) (d : list Z) :
  Nat.iter (q * length d) rotate_left1 d = d.
Proof.
  induction q as [|q IH]; [done |].
  replace (S q * length d)%nat with (length d + q * length d)%nat by lia.
  rewrite Nat.iter_add, IH, iter_rotate_left1_drop_take by lia.
  by rewrite drop_all, firstn_all.
Qed.

Lemma iter_rotate_left1 (j : nat) (d : list Z) :
  Nat.iter j rotate_left1 d = rotate j d.
Proof.
  destruct d as [|x d].
  { unfold rotate. rewrite drop_nil, take_nil. simpl.
    induction j as [|j IH]; simpl; [done | by rewrite IH]. }
  set (l := x :: d). assert (Hl : (0 < length l)%nat) by (simpl; lia).
  unfold rotate.
  pose proof (Nat.div_mod_eq j (length l)) as Hj.
  pose proof (Nat.mod_upper_bound j (length l)) as Hm.
  replace (Nat.iter j rotate_left1 l)
    with (Nat.iter (j `mod` length l + j / length l * length l) rotate_left1 l)
    by (f_equal; lia).
  rewrite Nat.iter_add, iter_rotate_left1_full.
  apply iter_rotate_left1_drop_take. lia.
Qed.

Lemma iter_rotate_right1 (j m : nat) (d : list Z) :
  ((j + m) `mod` length d = 0)%nat →
  Nat.iter j rotate_right1 d = Nat.iter m rotate_left1 d.
Proof.
  intros Hjm.
  assert (Hinv : ∀ k y, Nat.iter k rotate_right1 (Nat.iter k rotate_left1 y) = y).
  { induction k as [|k IH]; intros y; [done |].
    rewrite Nat.iter_succ_r. simpl. by rewrite rotate_right1_left1. }
  destruct (decide (length d = 0%nat)) as [Hz|Hnz].
  - destruct d; [| done]. clear. 
    assert (∀ k f, f [] = [] → Nat.iter k f ([] : list Z) = []) as Hnil
      by (intros k f Hf; induction k; simpl; [done | by rewrite IHk]).
    by rewrite !Hnil.
  - rewrite <- (Hinv j (Nat.iter m rotate_left1 d)), <- Nat.iter_add.
    f_equal. apply Nat.Div0.div_exact in Hjm.
    rewrite Hjm, Nat.mul_comm. by rewrite iter_rotate_left1_full.
Qed.

Lemma deque_rotate_steps_rotate (n : Z) (d : list Z) :
  d ≠ [] →
  deque_rotate_steps n d = rotate (Z.to_nat ((- n) `mod` Z.of_nat (length d))) d.
Proof.
  intros Hd. assert (Hl : (0 < length d)%nat) by (destruct d; simpl; [done | lia]).
  unfold deque_rotate_steps. destruct (Z.leb_spec 0 n) as [Hn|Hn].
  - rewrite (iter_rotate_right1 _ (Z.to_nat ((- n) `mod` Z.of_nat (length d)))).
    + apply iter_rotate_left1.
    + apply Nat2Z.inj. rewrite Nat2Z.inj_mod, Nat2Z.inj_add, !Z2Nat.id; [| | lia].
      * rewrite Zplus_mod_idemp_r. replace (n + - n)%Z with 0%Z by lia.
        by rewrite Zmod_0_l.
      * apply Z.mod_pos_bound. lia.
  - rewrite iter_rotate_left1. unfold rotate. f_equal; f_equal.
    all: apply Nat2Z.inj; rewrite !Nat2Z.inj_mod, !Z2Nat.id; try lia.
    all: try (apply Z.mod_pos_bound; lia).
    all: by rewrite Zmod_mod.
Qed.

Lemma rotated_table_rotate (r : Z) :
  rotated_table r = rotate (Z.to_nat (r `mod` 31)) base_palette.
Proof.
  unfold rotated_table. rewrite deque_rotate_steps_rotate by done.
  by rewrite Z.opp_involutive.
Qed.

Lemma rotated_table_length (r : Z) :
  length (rotated_table r) = 31%nat.
Proof. by rewrite rotated_table_rotate, length_rotate. Qed.

Lemma rotated_table_lookup (r : Z) (i : nat) :
  (i < 31)%nat → rotated_table r !! i = rotated_entry r i.
Proof.
  intros Hi. rewrite rotated_table_rotate, lookup_rotate_r by done.
  unfold rotated_entry, rotate_nat_add. f_equal. f_equal.
  change (Z.of_nat (length base_palette)) with 31%Z.
  rewrite Z2Nat.id by (apply Z.mod_pos_bound; lia).
  by rewrite Zplus_mod_idemp_l, Z.add_comm.
Qed.

Lemma rotated_table_period (r k : Z) :
  rotated_table (r + 31 * k) = rotated_table r.
Proof.
  rewrite !rotated_table_rotate. do 2 f_equal.
  rewrite Z.mul_comm. apply Z_mod_plus_full.
Qed.

Lemma rotated_table_elem (r x : Z) :
  x ∈ rotated_table r → x ∈ base_palette.
Proof. rewrite rotated_table_rotate. apply elem_of_rotate. Qed.

Lemma base_palette_range (x : Z) :
  x ∈ base_palette → (0 ≤ x ≤ 255)%Z ∧ x ≠ null_color.
Proof.
  unfold base_palette, null_color. intros H.
  repeat (apply elem_of_cons in H as [-> | H]; [split; [lia | done] |]).
  by apply elem_of_nil in H.
Qed.

(** ** The gradient palette *)

Lemma GradientPalette_rotate_Ok (r : Z) :
  rotation_ok r = true → GradientPalette_rotate r = Ok (rotated_table r).
Proof.
  unfold rotation_ok, GradientPalette_rotate, deque_rotate, rotated_table.
  by intros ->.
Qed.

Lemma GradientPalette_rotate_overflow (r : Z) :
  rotation_ok r = false → GradientPalette_rotate r = Raise OverflowError.
Proof.
  unfold rotation_ok, GradientPalette_rotate, deque_rotate. by intros ->.
Qed.

Lemma construct_GradientPalette (binary : bool) (r : Z) :
  rotation_ok r = true →
  construct GradientPalette binary r = Ok (gradient_instance binary r).
Proof.
  intros H. cbn [construct]. unfold GradientPalette_init.
  change (super GradientPalette (new GradientPalette)) with (Ok XXDParser).
  cbn [mbind result_bind init_of XXDParser_init].
  by rewrite (GradientPalette_rotate_Ok r H).
Qed.

Lemma construct_GradientPalette_overflow (binary : bool) (r : Z) :
  rotation_ok r = false →
  construct GradientPalette binary r = Raise OverflowError.
Proof.
  intros H. cbn [construct]. unfold GradientPalette_init.
  change (super GradientPalette (new GradientPalette)) with (Ok XXDParser).
  cbn [mbind result_bind init_of XXDParser_init].
  by rewrite (GradientPalette_rotate_overflow r H).
Qed.

Lemma construct_GradientPalette_inv (binary : bool) (r : Z) (self : instance) :
  construct GradientPalette binary r = Ok self →
  rotation_ok r = true ∧ self = gradient_instance binary r.
Proof.
  destruct (rotation_ok r) eqn:H.
  - rewrite construct_GradientPalette by done. by intros [= <-].
  - by rewrite construct_GradientPalette_overflow.
Qed.

Lemma deque_getitem_elem (d : list Z) (i x : Z) :
  deque_getitem d i = Ok x → x ∈ d.
Proof.
  unfold deque_getitem.
  destruct (_ && _); [| done].
  destruct (d !! _) as [y|] eqn:E; [| done].
  intros [= <-]. by apply list_elem_of_lookup_2 in E.
Qed.

(** The conversion to floating point is exact below 2^53. *)
Lemma float_of_int_small (a : Z) :
  (Z.abs a < 2 ^ 53)%Z → float_of_int a = Ok a.
Proof.
  intros Ha. unfold float_of_int.
  destruct (Z.ltb_spec (Z.log2 (Z.abs a)) 53) as [_ | Hge]; [done |].
  exfalso. destruct (Z.eq_dec (Z.abs a) 0%Z) as [H0 | Hnz].
  - rewrite H0 in Hge. simpl in Hge. lia.
  - apply Z.log2_le_pow2 in Hge; lia.
Qed.

(** Whatever byte the picker is given, a colour it returns is the null
    colour or an entry of the table. *)
Lemma GradientPalette_color_picker_elem (self : instance) (table : list Z)
    (byte : Z) (v : pyval) :
  attr_palette self = Some table →
  GradientPalette_color_picker self byte = Ok v →
  ∃ c, v = PyInt c ∧ (c = null_color ∨ c ∈ table).
Proof.
  intros Ht. unfold GradientPalette_color_picker. rewrite Ht.
  destruct (byte =? 0)%Z.
  - intros [= <-]. exists null_color. auto.
  - cbn [getattr mbind result_bind].
    destruct (float_of_int _) as [f|]; [| done]. cbn [mbind result_bind].
    destruct (deque_getitem table _) as [x|] eqn:E; [| done].
    intros [= <-]. exists x. split; [done | right]. by apply deque_getitem_elem in E.
Qed.

Lemma GradientPalette_color_picker_byte (self : instance) (table : list Z) (b : Z) :
  attr_palette self = Some table → length table = 31%nat → (0 < b ≤ 255)%Z →
  (0 ≤ 31 * b / 256 ≤ 30)%Z ∧
  ∃ c, table !! Z.to_nat (31 * b / 256) = Some c ∧
       GradientPalette_color_picker self b = Ok (PyInt c).
Proof.
  intros Ht Hlen Hb.
  assert (Hi : (0 ≤ 31 * b / 256 ≤ 30)%Z).
  { split; [apply Z.div_pos; lia |].
    apply Z.lt_succ_r, Z.div_lt_upper_bound; lia. }
  split; [done |].
  destruct (lookup_lt_is_Some_2 table (Z.to_nat (31 * b / 256)) ltac:(lia)) as [c Hc].
  exists c. split; [done |].
  unfold GradientPalette_color_picker. rewrite Ht.
  destruct (Z.eqb_spec b 0) as [?|_]; [lia |].
  cbn [getattr mbind result_bind]. rewrite Hlen.
  change (Z.of_nat 31) with 31%Z.
  rewrite float_of_int_small
    by (change (2 ^ 53)%Z with 9007199254740992%Z; lia).
  cbn [mbind result_bind].
  rewrite Z.quot_div_nonneg by lia.
  unfold deque_getitem. rewrite Hlen. change (Z.of_nat 31) with 31%Z.
  destruct (Z.ltb_spec (31 * b / 256) 0) as [?|_]; [lia |].
  destruct (Z.leb_spec 0 (31 * b / 256)) as [_|?]; [| lia].
  destruct (Z.ltb_spec (31 * b / 256) 31) as [_|?]; [| lia].
  simpl. by rewrite Hc.
Qed.

(** ** The properties of the palettes *)

(** C4, amended. For every rotation that the deque accepts (its opposite
    fits a C [ssize_t]), the gradient palette picks the reserved null colour
    59 for the byte 0; that colour is no entry of the ramp of 31 colours, so
    it differs from the colour picked for every byte from 1 to 255. *)
Theorem gradient_zero_byte (binary : bool) (r : Z) :
  rotation_ok r = true →
  ∃ self table,
    construct GradientPalette binary r = Ok self ∧
    attr_palette self = Some table ∧ length table = 31%nat ∧
    color_picker self 0 = Ok (PyInt 59) ∧
    bool_decide (59%Z ∈ table) = false ∧
    ∀ b, (0 < b ≤ 255)%Z →
      ∃ c, color_picker self b = Ok (PyInt c) ∧ c ≠ 59%Z.
Proof.
  intros Hr.
  eexists _, _. split; [by apply construct_GradientPalette |].
  split; [reflexivity |]. split; [apply rotated_table_length |].
  split; [reflexivity |]. split.
  - apply bool_decide_eq_false. intros H.
    apply rotated_table_elem, base_palette_range in H. by destruct H.
  - intros b Hb.
    destruct (GradientPalette_color_picker_byte (gradient_instance binary r)
                _ b eq_refl (rotated_table_length r) Hb)
      as (_ & c & Hc & Hp).
    exists c. split; [exact Hp |].
    apply list_elem_of_lookup_2, rotated_table_elem, base_palette_range in Hc.
    by destruct Hc.
Qed.

(** C5, amended. For every rotation that the deque accepts and every byte
    from 1 to 255, the gradient palette picks the entry of the rotated
    table at floor(31 * b / 256); that index lies from 0 to 30, so that
    bringing it into the range of the table changes nothing and the lookup
    succeeds. The rotated table has 31 entries, the entry at [i] being the
    entry of the base table at [(i + r) mod 31]. *)
Theorem gradient_color_pick_index (binary : bool) (r b : Z) :
  rotation_ok r = true →
  (0 < b ≤ 255)%Z →
  ∃ self table c,
    construct GradientPalette binary r = Ok self ∧
    attr_palette self = Some table ∧ length table = 31%nat ∧
    (∀ i, (i < 31)%nat → table !! i = rotated_entry r i) ∧
    (0 ≤ 31 * b / 256 ≤ 30)%Z ∧
    clamp 31 (31 * b / 256) = (31 * b / 256)%Z ∧
    table !! Z.to_nat (clamp 31 (31 * b / 256)) = Some c ∧
    color_picker self b = Ok (PyInt c).
Proof.
  intros Hr Hb.
  destruct (GradientPalette_color_picker_byte (gradient_instance binary r)
              _ b eq_refl (rotated_table_length r) Hb)
    as (Hi & c & Hc & Hp).
  assert (Hclamp : clamp 31 (31 * b / 256) = (31 * b / 256)%Z)
    by (unfold clamp; lia).
  eexists _, _, c. split; [by apply construct_GradientPalette |].
  split; [reflexivity |]. split; [apply rotated_table_length |].
  split; [intros i Hlt; by apply rotated_table_lookup |].
  split; [exact Hi |]. split; [exact Hclamp |].
  split; [by rewrite Hclamp | exact Hp].
Qed.

(** C6, amended. The rotation of the table of 31 colours is circular: for
    every rotation [r] and every integer [k] such that the deque accepts
    both [r] and [r + 31 * k], and every byte from 0 to 255, the palette
    built with rotation [r + 31 * k] picks the colour that the palette
    built with rotation [r] picks. *)
Theorem gradient_rotation_period (binary : bool) (r k b : Z) :
  rotation_ok r = true → rotation_ok (r + 31 * k) = true →
  (0 ≤ b ≤ 255)%Z →
  ∃ self1 self2 c,
    construct GradientPalette binary r = Ok self1 ∧
    construct GradientPalette binary (r + 31 * k) = Ok self2 ∧
    color_picker self1 b = Ok (PyInt c) ∧
    color_picker self2 b = Ok (PyInt c).
Proof.
  intros Hr Hrk Hb. rewrite !construct_GradientPalette by done.
  unfold gradient_instance at 2. rewrite rotated_table_period.
  fold (gradient_instance binary r).
  destruct (decide (b = 0%Z)) as [-> | Hnz].
  - eexists _, _, 59%Z. repeat split; reflexivity.
  - destruct (GradientPalette_color_picker_byte (gradient_instance binary r)
                _ b eq_refl (rotated_table_length r) ltac:(lia))
      as (_ & c & _ & Hp).
    eexists _, _, c. repeat split; exact Hp.
Qed.

(** C8. Every construction of an [AsciiPalette] raises [TypeError]: its
    [__init__] calls [super(GradientPalette, self)] on an instance whose
    class does not have [GradientPalette] among its bases. No argument gives
    an instance. *)
Theorem AsciiPalette_construct_raises (binary : bool) (rotate_index : Z) :
  bool_decide (GradientPalette ∈ mro AsciiPalette) = false ∧
  super GradientPalette (new AsciiPalette) = Raise TypeError ∧
  AsciiPalette_init (new AsciiPalette) binary rotate_index = Raise TypeError ∧
  construct AsciiPalette binary rotate_index = Raise TypeError.
Proof. repeat split; reflexivity. Qed.

(** ** The properties of the line reassembler *)

(** C7. The line of the elision marker, an asterisk and a newline, comes
    back from [format_line] unchanged, whatever the colorizer is; the
    colorizer is not called. *)
Theorem elision_marker_unchanged (colorizer : str → result str) :
  elision_marker = lit "*" ++ [LF] ∧
  format_line (lit "*" ++ [LF]) colorizer = Ok (lit "*" ++ [LF]).
Proof. split; reflexivity. Qed.

(** C3. A line that is not the elision marker and does not have the
    address separator followed, later, by the separator of the text field
    makes [format_line] raise [ValueError], whatever the colorizer is: one
    of the two unpackings of a split gets a single part. *)
Theorem malformed_line_raises (line : str) (colorizer : str → result str) :
  line ≠ elision_marker → well_formed line = false →
  format_line line colorizer = Raise ValueError.
Proof.
  intros Hm Hwf. apply format_line_malformed.
  - destruct (str_eqb line elision_marker) eqn:E; [| done].
    by apply str_eqb_eq in E.
  - destruct (columns line) as [cols|] eqn:E; [| done].
    assert (well_formed line = true) by (apply columns_well_formed; by rewrite E).
    congruence.
Qed.

(** C10. [format_line] does not end its results alike. The elision marker
    comes back with its newline. A well-formed record line, once its byte
    field is colorized, comes back without the last character of its text
    field, the newline of the line. The loop of [main] prints a newline
    after every result, so that the output has an empty line after each
    elision marker and none after a record line. *)
Theorem line_termination_not_uniform (colorizer : str → result str)
    (line address hex_data text colored : str) (last : N)
    (lines : list str) (stdout : str) :
  columns line = Some (address, hex_data, text ++ [last]) →
  colorizer hex_data = Ok colored →
  format_line elision_marker colorizer = Ok (lit "*" ++ [LF]) ∧
  format_line line colorizer =
    Ok (address ++ address_separator ++ colored ++ hex_separator ++ text) ∧
  main_loop colorizer (elision_marker :: lines) stdout =
    main_loop colorizer lines (stdout ++ lit "*" ++ [LF; LF]) ∧
  main_loop colorizer (line :: lines) stdout =
    main_loop colorizer lines
      (stdout ++ (address ++ address_separator ++ colored ++ hex_separator ++ text)
       ++ [LF]).
Proof.
  intros Hc Hcol.
  assert (Hline : format_line line colorizer =
    Ok (address ++ address_separator ++ colored ++ hex_separator ++ text)).
  { rewrite (format_line_columns _ _ _ _ _ Hc), Hcol.
    cbn [mbind result_bind]. unfold drop_last. by rewrite removelast_last. }
  split; [reflexivity |]. split; [exact Hline |]. split.
  - reflexivity.
  - cbn [main_loop]. by rewrite Hline.
Qed.

(** ** The colour sequences *)

Lemma Ok_inj {A} (a b : A) : Ok a = Ok b → a = b.
Proof. congruence. Qed.

Lemma bind_Ok {A B} (m : result A) (k : A → result B) (b : B) :
  m ≫= k = Ok b → ∃ a, m = Ok a ∧ k a = Ok b.
Proof. destruct m as [a|e]; [by exists a | done]. Qed.

Lemma lstrip_length (space : N → bool) (s : str) :
  (length (lstrip space s) ≤ length s)%nat.
Proof.
  induction s as [|c s IH]; simpl; [lia |]. destruct (space c); simpl; lia.
Qed.

Lemma lstrip_app (space : N → bool) (a b : str) :
  forallb space a = true → lstrip space (a ++ b) = lstrip space b.
Proof.
  induction a as [|c a IH]; simpl; [done |].
  intros [Hc Ha]%andb_true_iff. by rewrite Hc, IH.
Qed.

Lemma marker_at_shorter (s rest : str) :
  marker_at s = Some rest → (length rest < length s)%nat.
Proof.
  unfold marker_at.
  destruct (strip_prefix color_reset s) as [r|] eqn:E1.
  - intros [= <-]. apply strip_prefix_Some in E1. subst s.
    rewrite length_app. simpl. lia.
  - destruct (strip_prefix color_intro s) as [[|d r]|] eqn:E2; try done.
    apply strip_prefix_Some in E2. subst s.
    destruct (is_digit d); [| done].
    pose proof (lstrip_length is_digit r) as Hle.
    destruct (lstrip is_digit r) as [|c r']; [done |].
    destruct (c =? LETTER_m); [| done].
    intros [= <-]. rewrite length_app. simpl in *. lia.
Qed.

Lemma strip_markers_from_fuel (fuel1 fuel2 : nat) (s : str) :
  (length s ≤ fuel1)%nat → (length s ≤ fuel2)%nat →
  strip_markers_from fuel1 s = strip_markers_from fuel2 s.
Proof.
  revert fuel2 s. induction fuel1 as [|fuel1 IH]; intros fuel2 s H1 H2.
  - destruct s; [by destruct fuel2 | simpl in H1; lia].
  - destruct s as [|c s]; [by destruct fuel2 |].
    destruct fuel2 as [|fuel2]; [simpl in H2; lia |].
    cbn [strip_markers_from].
    destruct (marker_at (c :: s)) as [rest|] eqn:E.
    + apply marker_at_shorter in E. simpl in *. apply IH; lia.
    + f_equal. simpl in *. apply IH; lia.
Qed.

Lemma strip_markers_marker (s rest : str) :
  marker_at s = Some rest → strip_markers s = strip_markers rest.
Proof.
  intros E. unfold strip_markers. pose proof (marker_at_shorter _ _ E) as Hlt.
  destruct s as [|c s]; [simpl in Hlt; lia |].
  cbn [length strip_markers_from]. rewrite E.
  apply strip_markers_from_fuel; simpl in *; lia.
Qed.

Lemma strip_prefix_head (d c : N) (p s : str) :
  d ≠ c → strip_prefix (d :: p) (c :: s) = None.
Proof. intros H. cbn [strip_prefix]. apply N.eqb_neq in H. by rewrite H. Qed.

Lemma strip_markers_cons (c : N) (s : str) :
  c ≠ ESC → strip_markers (c :: s) = c :: strip_markers s.
Proof.
  intros Hc. unfold strip_markers. cbn [length strip_markers_from].
  assert (marker_at (c :: s) = None) as ->; [| done].
  unfold marker_at, color_reset, color_intro.
  by rewrite !strip_prefix_head by (unfold ESC in Hc; congruence).
Qed.

Lemma strip_markers_plain (a b : str) :
  no_escape a = true → strip_markers (a ++ b) = a ++ strip_markers b.
Proof.
  induction a as [|c a IH]; [done |]. simpl.
  intros [Hc Ha]%andb_true_iff. apply negb_true_iff, N.eqb_neq in Hc.
  by rewrite strip_markers_cons, IH.
Qed.

Lemma strip_markers_nil : strip_markers [] = [].
Proof. reflexivity. Qed.

Lemma uint_digits_digits (u : Decimal.uint) :
  forallb is_digit (uint_digits u) = true.
Proof. induction u; simpl; done. Qed.

(** The decimal numeral of a number that is not negative: one digit at
    least and digits only. *)
Lemma format_d_digits (i : Z) :
  (0 ≤ i)%Z →
  ∃ d ds, format_d i = d :: ds ∧ is_digit d = true ∧ forallb is_digit ds = true.
Proof.
  intros Hi. unfold format_d. destruct i as [|p|p]; [| | lia].
  - by exists 0x30, [].
  - simpl. pose proof (uint_digits_digits (Pos.to_uint p)) as Hd.
    pose proof (Unsigned.to_uint_nonnil p) as Hn.
    destruct (Pos.to_uint p) eqn:E; try done; simpl in *;
      eexists _, _; (split; [reflexivity |]); by split.
Qed.

Lemma strip_markers_colorize (s rest colored : str) (i : Z) :
  (0 ≤ i)%Z → no_escape s = true → colorize s (PyInt i) = Ok colored →
  strip_markers (colored ++ rest) = s ++ strip_markers rest.
Proof.
  intros Hi Hs Hc. apply Ok_inj in Hc. subst colored.
  destruct (format_d_digits i Hi) as (d & ds & -> & Hd & Hds).
  rewrite <- !app_assoc.
  rewrite (strip_markers_marker _ (s ++ color_reset ++ rest)).
  - rewrite strip_markers_plain by done. f_equal.
    apply strip_markers_marker. unfold marker_at. by rewrite strip_prefix_app.
  - unfold marker_at.
    assert (strip_prefix color_reset
              (color_intro ++ (d :: ds) ++ [LETTER_m] ++ s ++ color_reset ++ rest)
            = None) as -> by reflexivity.
    rewrite strip_prefix_app. rewrite <- app_comm_cons, Hd.
    rewrite lstrip_app by done. reflexivity.
Qed.

Lemma marker_at_select (i : Z) (rest : str) :
  (0 ≤ i)%Z →
  marker_at (color_intro ++ format_d i ++ [LETTER_m] ++ rest) = Some rest.
Proof.
  intros Hi. destruct (format_d_digits i Hi) as (d & ds & -> & Hd & Hds).
  unfold marker_at.
  assert (strip_prefix color_reset
            (color_intro ++ (d :: ds) ++ [LETTER_m] ++ rest) = None)
    as -> by reflexivity.
  rewrite strip_prefix_app. rewrite <- app_comm_cons, Hd.
  rewrite lstrip_app by done. reflexivity.
Qed.

(** Removing the colour sequences undoes their insertion into a text
    without escape characters. *)
Lemma colored_from_strip (plain colored : str) :
  colored_from plain colored → no_escape plain = true →
  strip_markers colored = plain.
Proof.
  induction 1 as [|c p q _ IH|i p q Hi _ IH|p q _ IH]; intros Hne.
  - reflexivity.
  - simpl in Hne. apply andb_true_iff in Hne as [Hc Hp].
    apply negb_true_iff, N.eqb_neq in Hc.
    by rewrite strip_markers_cons, IH.
  - rewrite (strip_markers_marker _ q); [by apply IH |].
    apply marker_at_select. lia.
  - rewrite (strip_markers_marker _ q); [by apply IH |].
    unfold marker_at. by rewrite strip_prefix_app.
Qed.

(** ** The colorizer *)

Section Colorizer.
Variable todecimal : N → option N.

Lemma color_index_nonneg (binary : bool) (r n : Z) (v : pyval) :
  color_picker (gradient_instance binary r) n = Ok v →
  ∃ c, v = PyInt c ∧ (0 ≤ c ≤ 255)%Z.
Proof.
  intros H.
  destruct (GradientPalette_color_picker_elem (gradient_instance binary r)
              _ n v eq_refl H) as (c & -> & Hc).
  exists c. split; [done |]. destruct Hc as [-> | Hc].
  - unfold null_color. lia.
  - by apply rotated_table_elem, base_palette_range in Hc as [? _].
Qed.

(** With pixelate off, a fragment comes back as it is or between a colour
    sequence and the reset sequence. *)
Lemma map_color_strip (binary : bool) (r : Z) (byte colored rest : str) :
  no_escape byte = true →
  map_color todecimal (gradient_instance binary r) false byte = Ok colored →
  strip_markers (colored ++ rest) = byte ++ strip_markers rest.
Proof.
  intros Hne. unfold map_color. destruct (strip byte) as [|c0 s0].
  - intros [= <-]. by apply strip_markers_plain.
  - cbn [gradient_instance attr_base getattr mbind result_bind].
    intros (n & _ & (v & Ev & Hcol)%bind_Ok)%bind_Ok.
    destruct (color_index_nonneg _ _ _ _ Ev) as (c & -> & Hc).
    apply strip_markers_colorize with (i := c); [lia | done | done].
Qed.

Lemma colored_from_refl (s : str) : colored_from s s.
Proof. induction s; by constructor. Qed.

Lemma colored_from_app (a a' b b' : str) :
  colored_from a a' → colored_from b b' → colored_from (a ++ b) (a' ++ b').
Proof.
  intros Ha Hb. induction Ha as [|c p q _ IH|i p q Hi _ IH|p q _ IH].
  - done.
  - simpl. by constructor.
  - rewrite <- !app_assoc. by constructor.
  - rewrite <- app_assoc. by constructor.
Qed.

Lemma map_color_colored_from (binary : bool) (r : Z) (byte colored : str) :
  map_color todecimal (gradient_instance binary r) false byte = Ok colored →
  colored_from byte colored.
Proof.
  unfold map_color. destruct (strip byte) as [|c0 s0].
  - intros [= <-]. apply colored_from_refl.
  - cbn [gradient_instance attr_base getattr mbind result_bind].
    intros (n & _ & (v & Ev & Hcol)%bind_Ok)%bind_Ok.
    destruct (color_index_nonneg _ _ _ _ Ev) as (c & -> & Hc).
    apply Ok_inj in Hcol. subst colored.
    apply colored_select; [done |].
    induction byte as [|b byte IH]; simpl; [| by constructor].
    rewrite <- (app_nil_r color_reset). apply colored_reset, colored_nil.
Qed.

Lemma parse_colored_from (binary : bool) (r : Z) (hex_data colored : str) :
  parse todecimal (gradient_instance binary r) hex_data false = Ok colored →
  colored_from hex_data colored.
Proof.
  unfold parse.
  cbn [gradient_instance attr_regex getattr mbind result_bind].
  set (regex := if binary then regex_bin else regex_hex).
  assert (Hcat : concat (re_split regex hex_data) = hex_data)
    by (apply re_split_concat; destruct binary; simpl; lia).
  intros (gs & Egs & [= <-])%bind_Ok. rewrite <- Hcat.
  clear Hcat. revert gs Egs.
  induction (re_split regex hex_data) as [|byte byte_data IH]; intros gs.
  - intros [= <-]. constructor.
  - cbn [map_result].
    intros (g & Eg & (gs' & Egs & [= <-])%bind_Ok)%bind_Ok.
    cbn [concat]. apply colored_from_app; [| by apply IH].
    by apply (map_color_colored_from binary r).
Qed.

Lemma map_color_fragments_strip (binary : bool) (r : Z)
    (byte_data colored_data : list str) (rest : str) :
  no_escape (concat byte_data) = true →
  map_result (map_color todecimal (gradient_instance binary r) false) byte_data
    = Ok colored_data →
  strip_markers (concat colored_data ++ rest)
    = concat byte_data ++ strip_markers rest.
Proof.
  revert colored_data. induction byte_data as [|byte byte_data IH];
    intros colored_data Hne.
  - intros [= <-]. done.
  - cbn [map_result].
    intros (g & Eg & (gs & Egs & [= <-])%bind_Ok)%bind_Ok.
    cbn [concat] in *. unfold no_escape in Hne.
    rewrite forallb_app in Hne. apply andb_true_iff in Hne as [Hb Hbs].
    rewrite <- !app_assoc.
    rewrite (map_color_strip _ _ _ _ _ Hb Eg). f_equal. by apply IH.
Qed.

Lemma parse_strip (binary : bool) (r : Z) (hex_data colored rest : str) :
  no_escape hex_data = true →
  parse todecimal (gradient_instance binary r) hex_data false = Ok colored →
  strip_markers (colored ++ rest) = hex_data ++ strip_markers rest.
Proof.
  intros Hne. unfold parse.
  cbn [gradient_instance attr_regex getattr mbind result_bind].
  set (regex := if binary then regex_bin else regex_hex).
  assert (Hcat : concat (re_split regex hex_data) = hex_data)
    by (apply re_split_concat; destruct binary; simpl; lia).
  intros (gs & Egs & [= <-])%bind_Ok. rewrite <- Hcat.
  apply (map_color_fragments_strip binary r); [by rewrite Hcat | exact Egs].
Qed.

End Colorizer.

(** ** Byte fields of the documented form *)

Lemma is_hex_digit_cases (c : N) :
  is_hex_digit c = true →
  c = 48 ∨ c = 49 ∨ c = 50 ∨ c = 51 ∨ c = 52 ∨ c = 53 ∨ c = 54 ∨ c = 55
  ∨ c = 56 ∨ c = 57 ∨ c = 65 ∨ c = 66 ∨ c = 67 ∨ c = 68 ∨ c = 69 ∨ c = 70
  ∨ c = 97 ∨ c = 98 ∨ c = 99 ∨ c = 100 ∨ c = 101 ∨ c = 102.
Proof.
  unfold is_hex_digit. rewrite !orb_true_iff, !andb_true_iff, !N.leb_le. lia.
Qed.

Section HexField.
Variable todecimal : N → option N.

(** A token of two hexadecimal digits is no whitespace and reads, in base
    16, as a byte. *)
Lemma hex_token_int (c1 c2 : N) :
  is_hex_digit c1 = true → is_hex_digit c2 = true →
  strip [c1; c2] = [c1; c2] ∧
  int todecimal [c1; c2] 16 = Ok (16 * digit_value c1 + digit_value c2)%Z ∧
  (0 ≤ 16 * digit_value c1 + digit_value c2 ≤ 255)%Z.
Proof.
  intros H1%is_hex_digit_cases H2%is_hex_digit_cases.
  repeat (destruct H1 as [-> | H1]); try subst c1;
    repeat (destruct H2 as [-> | H2]); try subst c2;
    (split; [reflexivity | split; [reflexivity | vm_compute; split; discriminate]]).
Qed.

Lemma re_split_from_hex_field (fuel : nat) (sep s : str) :
  (length s ≤ fuel)%nat → forallb (λ c, c =? 0x20) sep = true →
  hex_field s = true →
  Forall fragment_ok (re_split_from fuel regex_hex sep s).
Proof.
  revert sep s. induction fuel as [|fuel IH]; intros sep s Hlen Hsep Hs.
  - destruct s; [| simpl in Hlen; lia]. repeat constructor. done.
  - destruct s as [|c s]; [repeat constructor; done |].
    cbn [re_split_from regex_hex cls width]. cbn [hex_field] in Hs.
    destruct (N.eqb_spec c 0x20) as [-> | Hc].
    + cbn [match_here]. change (is_hex_digit 32) with false. cbv iota.
      apply IH; [simpl in Hlen; lia | | done].
      rewrite forallb_app, Hsep. done.
    + destruct s as [|c2 s]; [done |].
      apply andb_true_iff in Hs as [[H1 H2]%andb_true_iff Hs].
      cbn [match_here]. rewrite H1, H2.
      constructor; [by left |]. constructor; [right; by exists c, c2 |].
      apply IH; [simpl in Hlen; lia | done | done].
Qed.

Lemma re_split_hex_field (s : str) :
  hex_field s = true → Forall fragment_ok (re_split regex_hex s).
Proof. intros H. by apply re_split_from_hex_field. Qed.

Lemma strip_spaces (s : str) :
  forallb (λ c, c =? 0x20) s = true → strip s = [].
Proof.
  intros H. unfold strip.
  assert (lstrip isspace s = []) as ->; [| done].
  induction s as [|c s IH]; [done |].
  simpl in H. apply andb_true_iff in H as [->%N.eqb_eq H].
  cbn [lstrip]. change (isspace 32) with true. cbv iota. by apply IH.
Qed.

Lemma map_color_fragment_ok (r : Z) (pixelate : bool) (fragment : str) :
  fragment_ok fragment →
  ∃ colored,
    map_color todecimal (gradient_instance false r) pixelate fragment = Ok colored.
Proof.
  intros [Hsp | (c1 & c2 & -> & H1 & H2)]; unfold map_color.
  - rewrite strip_spaces by done. by eexists.
  - destruct (hex_token_int c1 c2 H1 H2) as (-> & Hint & Hb).
    cbn [gradient_instance attr_base getattr mbind result_bind].
    rewrite Hint. cbn [mbind result_bind].
    destruct (decide (16 * digit_value c1 + digit_value c2 = 0)%Z) as [-> | Hnz].
    + by eexists.
    + destruct (GradientPalette_color_picker_byte (gradient_instance false r)
                  _ (16 * digit_value c1 + digit_value c2)%Z eq_refl
                  (rotated_table_length r) ltac:(lia))
        as (_ & c & _ & Hp).
      change (color_picker (gradient_instance false r))
        with (GradientPalette_color_picker (gradient_instance false r)).
      rewrite Hp. by eexists.
Qed.

Lemma map_result_total {A B} (f : A → result B) (l : list A) :
  Forall (λ a, ∃ b, f a = Ok b) l → ∃ bs, map_result f l = Ok bs.
Proof.
  induction 1 as [|a l [b Hb] _ [bs Hbs]]; [by eexists |].
  cbn [map_result]. rewrite Hb. cbn [mbind result_bind]. rewrite Hbs. by eexists.
Qed.

End HexField.

(** ** The properties of the colorized line *)

Lemma no_escape_app (a b : str) :
  no_escape (a ++ b) = no_escape a && no_escape b.
Proof. apply forallb_app. Qed.

Lemma nil_or_last (s : str) : s = [] ∨ ∃ t x, s = t ++ [x].
Proof. induction s as [|x t _] using rev_ind; [by left | right; by exists t, x]. Qed.

Lemma no_escape_drop_last (s : str) :
  no_escape s = true → no_escape (drop_last s) = true.
Proof.
  unfold drop_last. destruct (nil_or_last s) as [-> | (t & x & ->)]; [done |].
  rewrite removelast_last, no_escape_app. by intros [? _]%andb_true_iff.
Qed.

(** C1, amended. For every well-formed record line, when [format_line]
    with the colorizer of [main] (pixelate off) returns, the result is the
    address column, the address separator, the colorized byte field, the
    separator of the text field and the text column without its last
    character; the colorized byte field is the byte field of the input with
    colour and reset sequences put in. When the line has no escape
    character of its own, removing the colour sequences from the colorized
    byte field gives the byte field, and removing them from the result
    gives the input line without the last character of its text field: for
    a line that ends in a newline, the line without that newline. *)
Theorem format_line_preserves_columns (todecimal : N → option N)
    (binary : bool) (r : Z) (self : instance)
    (line address hex_data ascii_data out : str) :
  construct GradientPalette binary r = Ok self →
  columns line = Some (address, hex_data, ascii_data) →
  format_line line (λ h, parse todecimal self h false) = Ok out →
  ∃ colored,
    out = address ++ address_separator ++ colored ++ hex_separator
          ++ drop_last ascii_data ∧
    colored_from hex_data colored ∧
    (no_escape line = true →
     strip_markers colored = hex_data ∧
     strip_markers out = record_line address hex_data (drop_last ascii_data) ∧
     ∀ body, line = body ++ [LF] → strip_markers out = body).
Proof.
  intros [_ ->]%construct_GradientPalette_inv Hcols.
  rewrite (format_line_columns _ _ _ _ _ Hcols).
  intros (colored & Hparse & [= <-])%bind_Ok.
  exists colored. split; [done |].
  split; [by apply (parse_colored_from todecimal binary r) |].
  intros Hne.
  pose proof (columns_record_line _ _ _ _ Hcols) as Hline.
  rewrite Hline in Hne. unfold record_line in Hne.
  rewrite !no_escape_app in Hne.
  apply andb_true_iff in Hne as [Ha [Hs [Hh [Hhs Ht]%andb_true_iff]%andb_true_iff]%andb_true_iff].
  assert (Hstrip : strip_markers
            (address ++ address_separator ++ colored ++ hex_separator
             ++ drop_last ascii_data)
          = record_line address hex_data (drop_last ascii_data)).
  { unfold record_line.
    rewrite strip_markers_plain by done. f_equal.
    rewrite strip_markers_plain by done. f_equal.
    rewrite (parse_strip todecimal binary r hex_data) by done. f_equal.
    rewrite <- (app_nil_r (drop_last ascii_data)) at 1.
    rewrite app_assoc, strip_markers_plain, strip_markers_nil, app_nil_r.
    - done.
    - rewrite no_escape_app, Hhs. by apply no_escape_drop_last. }
  split; [| split; [exact Hstrip |]].
  - rewrite <- (app_nil_r colored).
    rewrite (parse_strip todecimal binary r hex_data) by done.
    by rewrite strip_markers_nil, app_nil_r.
  - intros body Hbody. etrans; [exact Hstrip |]. unfold record_line in *.
    rewrite Hline in Hbody. clear Hstrip Hparse Hcols Hline.
    destruct (nil_or_last ascii_data) as [-> | (t & x & ->)].
    + exfalso. change hex_separator with ([32] ++ [32]) in Hbody.
      rewrite app_nil_r, !app_assoc in Hbody.
      apply app_inj_tail in Hbody as [_ Hbody]. done.
    + unfold drop_last. rewrite removelast_last. rewrite !app_assoc in Hbody.
      apply app_inj_tail in Hbody as [<- _]. by rewrite !app_assoc.
Qed.

(** C9. For every byte field made of tokens of two hexadecimal digits and
    of spaces, every fragment of the tokenizer that is not empty once its
    whitespace is trimmed reads in base 16 as a byte, so that [int] does not
    raise; and [parse] returns a string, on every palette that the
    construction in hexadecimal mode gives and with pixelate on or off. *)
Theorem hex_field_parse_total (todecimal : N → option N) (r : Z)
    (pixelate : bool) (self : instance) (hex_data : str) :
  construct GradientPalette false r = Ok self →
  hex_field hex_data = true →
  Forall (λ fragment,
            strip fragment ≠ [] →
            ∃ byte, int todecimal fragment 16 = Ok byte ∧ (0 ≤ byte ≤ 255)%Z)
         (re_split regex_hex hex_data) ∧
  ∃ out, parse todecimal self hex_data pixelate = Ok out.
Proof.
  intros [_ ->]%construct_GradientPalette_inv H.
  pose proof (re_split_hex_field hex_data H) as Hfr. split.
  - eapply Forall_impl; [exact Hfr |].
    intros fragment [Hsp | (c1 & c2 & -> & H1 & H2)] Hne.
    + by rewrite strip_spaces in Hne.
    + destruct (hex_token_int todecimal c1 c2 H1 H2) as (_ & Hint & Hb).
      by eexists.
  - destruct (map_result_total
                (map_color todecimal (gradient_instance false r) pixelate)
                (re_split regex_hex hex_data)) as [gs Hgs].
    { eapply Forall_impl; [exact Hfr |]. intros f Hf.
      by apply map_color_fragment_ok. }
    exists (concat gs).
    unfold parse. cbn [gradient_instance attr_regex getattr mbind result_bind].
    by rewrite Hgs.
Qed.

(** ** The properties at concrete inputs *)

(** C1 as it is stated fails on the newline of the line: on the record line
    [00000000: 41  A] the result has the text column [A] without the newline
    of the input, and without its colour sequences it is the line without
    the newline, not the line. *)
Lemma format_line_drops_newline :
  let line := lit "00000000: 41  A" ++ [LF] in
  well_formed line = true ∧ no_escape line = true ∧
  columns line = Some (lit "00000000", lit "41", lit "A" ++ [LF]) ∧
  ∃ self out colored,
    construct GradientPalette false 0 = Ok self ∧
    format_line line (λ h, parse no_decimal self h false) = Ok out ∧
    columns out = Some (lit "00000000", colored, lit "A") ∧
    strip_markers out = lit "00000000: 41  A" ∧
    strip_markers out ≠ line.
Proof.
  cbv zeta. do 3 (split; [reflexivity |]).
  exists (gradient_instance false 0). eexists. eexists.
  split; [reflexivity |]. split; [vm_compute; reflexivity |].
  split; [vm_compute; reflexivity |]. split; [vm_compute; reflexivity |].
  vm_compute. discriminate.
Qed.

Lemma format_line_preserves_columns_witness :
  let line :=
    lit "00000000: 4865 6c6c 6f20 776f 726c 6421 0a        Hello world!."
    ++ [LF] in
  ∃ out colored,
    format_line line (λ h, parse no_decimal (gradient_instance false 0) h false)
      = Ok out ∧
    out = lit "00000000" ++ address_separator ++ colored ++ hex_separator
          ++ lit "      Hello world!." ∧
    strip_markers colored = lit "4865 6c6c 6f20 776f 726c 6421 0a" ∧
    strip_markers out
      = lit "00000000: 4865 6c6c 6f20 776f 726c 6421 0a        Hello world!.".
Proof.
  cbv zeta.
  destruct (format_line
              (lit "00000000: 4865 6c6c 6f20 776f 726c 6421 0a        Hello world!."
               ++ [LF])
              (λ h, parse no_decimal (gradient_instance false 0) h false))
    as [out|e] eqn:E; [| vm_compute in E; discriminate].
  destruct (format_line_preserves_columns no_decimal false 0
              (gradient_instance false 0)
              (lit "00000000: 4865 6c6c 6f20 776f 726c 6421 0a        Hello world!."
               ++ [LF])
              (lit "00000000") (lit "4865 6c6c 6f20 776f 726c 6421 0a")
              (lit "      Hello world!." ++ [LF]) out
              eq_refl eq_refl E) as (colored & H1 & _ & H).
  destruct (H eq_refl) as (H2 & _ & H4).
  exists out, colored. split; [reflexivity |]. split; [exact H1 |].
  split; [exact H2 |]. apply H4. reflexivity.
Defined.

Lemma malformed_line_raises_witness :
  lit "00000000 4865 6c6c" ++ [LF] ≠ elision_marker ∧
  well_formed (lit "00000000 4865 6c6c" ++ [LF]) = false ∧
  format_line (lit "00000000 4865 6c6c" ++ [LF]) (λ h, Ok h) = Raise ValueError.
Proof.
  split; [discriminate |]. split; [reflexivity |].
  apply malformed_line_raises; [discriminate | reflexivity].
Defined.

(** C4 as it is stated fails on a rotation the deque does not accept: with
    the rotation 2^63 + 1 the construction raises [OverflowError] and there
    is no palette to pick a colour for the byte 0. *)
Lemma gradient_zero_byte_overflow :
  rotation_ok (2 ^ 63 + 1) = false ∧
  construct GradientPalette false (2 ^ 63 + 1) = Raise OverflowError ∧
  ¬ ∃ self,
      construct GradientPalette false (2 ^ 63 + 1) = Ok self ∧
      color_picker self 0 = Ok (PyInt 59).
Proof.
  split; [reflexivity |].
  assert (H : construct GradientPalette false (2 ^ 63 + 1) = Raise OverflowError)
    by (by apply construct_GradientPalette_overflow).
  split; [exact H |]. intros (self & Hself & _). congruence.
Qed.

Lemma gradient_zero_byte_witness :
  rotation_ok 5 = true ∧
  ∃ self c,
    construct GradientPalette false 5 = Ok self ∧
    color_picker self 0 = Ok (PyInt 59) ∧
    (0 < 200 ≤ 255)%Z ∧ color_picker self 200 = Ok (PyInt c) ∧ c ≠ 59%Z.
Proof.
  split; [reflexivity |].
  destruct (gradient_zero_byte false 5 eq_refl)
    as (self & table & Hc & _ & _ & H0 & _ & Hb).
  destruct (Hb 200%Z ltac:(lia)) as (c & Hp & Hne).
  exists self, c. split; [exact Hc |]. split; [exact H0 |].
  split; [lia |]. split; [exact Hp | exact Hne].
Defined.

(** C5 as it is stated fails on a rotation the deque does not accept: with
    the rotation -2^63 the construction raises [OverflowError] and no colour
    is picked for the byte 200. *)
Lemma gradient_color_pick_index_overflow :
  rotation_ok (- 2 ^ 63) = false ∧
  construct GradientPalette false (- 2 ^ 63) = Raise OverflowError ∧
  ¬ ∃ self c,
      construct GradientPalette false (- 2 ^ 63) = Ok self ∧
      color_picker self 200 = Ok (PyInt c).
Proof.
  split; [reflexivity |].
  assert (H : construct GradientPalette false (- 2 ^ 63) = Raise OverflowError)
    by (by apply construct_GradientPalette_overflow).
  split; [exact H |]. intros (self & c & Hself & _). congruence.
Qed.

Lemma gradient_color_pick_index_witness :
  rotation_ok 3 = true ∧ (0 < 200 ≤ 255)%Z ∧
  ∃ self table c,
    construct GradientPalette false 3 = Ok self ∧
    attr_palette self = Some table ∧ length table = 31%nat ∧
    (∀ i, (i < 31)%nat → table !! i = rotated_entry 3 i) ∧
    (0 ≤ 31 * 200 / 256 ≤ 30)%Z ∧
    clamp 31 (31 * 200 / 256) = (31 * 200 / 256)%Z ∧
    table !! Z.to_nat (clamp 31 (31 * 200 / 256)) = Some c ∧
    color_picker self 200 = Ok (PyInt c).
Proof.
  split; [reflexivity |]. split; [lia |].
  apply (gradient_color_pick_index false 3 200); [reflexivity | lia].
Defined.

(** C6 as it is stated fails when one of the two rotations is not accepted:
    the rotation 3 gives a palette, the rotation 3 + 31 * 2^62 raises
    [OverflowError]. *)
Lemma gradient_rotation_period_overflow :
  (∃ self c, construct GradientPalette false 3 = Ok self
             ∧ color_picker self 200 = Ok (PyInt c)) ∧
  construct GradientPalette false (3 + 31 * 2 ^ 62) = Raise OverflowError.
Proof.
  split.
  - exists (gradient_instance false 3). eexists.
    split; [reflexivity | vm_compute; reflexivity].
  - by apply construct_GradientPalette_overflow.
Qed.

Lemma gradient_rotation_period_witness :
  rotation_ok 3 = true ∧ rotation_ok (3 + 31 * -2) = true ∧
  (0 ≤ 200 ≤ 255)%Z ∧
  ∃ self1 self2 c,
    construct GradientPalette false 3 = Ok self1 ∧
    construct GradientPalette false (3 + 31 * -2) = Ok self2 ∧
    color_picker self1 200 = Ok (PyInt c) ∧
    color_picker self2 200 = Ok (PyInt c).
Proof.
  split; [reflexivity |]. split; [reflexivity |]. split; [lia |].
  apply (gradient_rotation_period false 3 (-2) 200);
    [reflexivity | reflexivity | lia].
Defined.

Lemma hex_field_parse_total_witness :
  construct GradientPalette false 0 = Ok (gradient_instance false 0) ∧
  hex_field (lit " 4865 6c6c 0a ") = true ∧
  Forall (λ fragment,
            strip fragment ≠ [] →
            ∃ byte, int no_decimal fragment 16 = Ok byte ∧ (0 ≤ byte ≤ 255)%Z)
         (re_split regex_hex (lit " 4865 6c6c 0a ")) ∧
  ∃ out,
    parse no_decimal (gradient_instance false 0) (lit " 4865 6c6c 0a ") true
    = Ok out.
Proof.
  split; [reflexivity |]. split; [reflexivity |].
  apply (hex_field_parse_total no_decimal 0 true (gradient_instance false 0)
           (lit " 4865 6c6c 0a ")); reflexivity.
Defined.

Lemma line_termination_not_uniform_witness :
  let line := lit "00000000: 41  A" ++ [LF] in
  let colorizer : str → result str := λ h, Ok h in
  columns line = Some (lit "00000000", lit "41", lit "A" ++ [LF]) ∧
  format_line elision_marker colorizer = Ok (lit "*" ++ [LF]) ∧
  format_line line colorizer = Ok (lit "00000000: 41  A") ∧
  main_loop colorizer [elision_marker; line] []
    = (lit "*" ++ [LF; LF] ++ lit "00000000: 41  A" ++ [LF], Ok tt).
Proof.
  cbv zeta. split; [reflexivity |].
  destruct (line_termination_not_uniform (λ h, Ok h)
              (lit "00000000: 41  A" ++ [LF]) (lit "00000000") (lit "41")
              (lit "A") (lit "41") LF [lit "00000000: 41  A" ++ [LF]] []
              eq_refl eq_refl) as (H1 & H2 & H3 & _).
  split; [exact H1 |]. split; [exact H2 |].
  etrans; [exact H3 |]. reflexivity.
Defined.

(** ** The model on the examples of the documentation *)

Example re_split_hex_example :
  re_split regex_hex (lit " 4865 6c ")
  = [lit " "; lit "48"; []; lit "65"; lit " "; lit "6c"; lit " "].
Proof. reflexivity. Qed.

Example re_split_odd_run_example :
  re_split regex_hex (lit "486 5") = [[]; lit "48"; lit "6 5"].
Proof. reflexivity. Qed.

Example re_split_bin_example :
  re_split regex_bin (lit "010101010 11111111")
  = [[]; lit "01010101"; lit "0 "; lit "11111111"; []].
Proof. reflexivity. Qed.

Example int_examples :
  int no_decimal (lit "ff") 16 = Ok 255%Z ∧
  int no_decimal (lit " 0x_1F ") 16 = Ok 31%Z ∧
  int no_decimal (lit "-f") 16 = Ok (-15)%Z ∧
  int no_decimal (lit "6 5") 16 = Raise ValueError ∧
  int no_decimal (lit "f__f") 16 = Raise ValueError ∧
  int no_decimal (lit "01010101") 2 = Ok 85%Z.
Proof. repeat split; reflexivity. Qed.

Example colorize_example :
  colorize (lit "48") (PyInt 227)
  = Ok (ESC :: lit "[38;5;227m48" ++ ESC :: lit "[0m").
Proof. reflexivity. Qed.

Example rotate_examples :
  GradientPalette_rotate 0 = Ok base_palette ∧
  rotated_table 3 !! 0%nat = Some 209%Z ∧
  rotated_table (-1) !! 0%nat = Some 168%Z ∧
  GradientPalette_rotate 31 = Ok base_palette ∧
  GradientPalette_rotate (2 ^ 63 + 1) = Raise OverflowError ∧
  GradientPalette_rotate (- 2 ^ 63) = Raise OverflowError.
Proof. repeat split; reflexivity. Qed.

(** The largest rotation the deque accepts: 2^63 is 8 modulo 31. *)
Example rotate_largest_example :
  GradientPalette_rotate (2 ^ 63) = Ok (rotated_table 8).
Proof.
  rewrite GradientPalette_rotate_Ok by reflexivity.
  rewrite (rotated_table_rotate (2 ^ 63)), (rotated_table_rotate 8).
  vm_compute. reflexivity.
Qed.

Example float_examples :
  float_of_int (2 ^ 53 + 1) = Ok (2 ^ 53)%Z ∧
  float_of_int (2 ^ 53 + 3) = Ok (2 ^ 53 + 4)%Z ∧
  float_of_int (- (2 ^ 1024 - 2 ^ 970 - 1)) = Ok (- (2 ^ 1024 - 2 ^ 971))%Z ∧
  float_of_int (2 ^ 1024 - 2 ^ 970) = Raise OverflowError.
Proof. repeat split; vm_compute; reflexivity. Qed.

(** A byte field outside the documented form: the separator fragment is no
    numeral and [parse] raises. *)
Example parse_odd_run_example :
  parse no_decimal (gradient_instance false 0) (lit "486 5") false
  = Raise ValueError.
Proof. reflexivity. Qed.

Example main_example :
  main no_decimal 0 false [lit "00000000: 48  H" ++ [LF]; lit "*" ++ [LF]] 0
  = (lit "00000000: " ++ ESC :: lit "[38;5;227m48" ++ ESC :: lit "[0m  H"
     ++ [LF] ++ lit "*" ++ [LF; LF], Ok tt).
Proof. reflexivity. Qed.

Example main_exit_code_example :
  main no_decimal 0 false [] 1 = ([], Raise (SystemExit 1)).
Proof. reflexivity. Qed.

(** ** The shape of a split *)

Lemma match_here_app (cls : N → bool) (n : nat) (t s tok rest : str) :
  match_here cls n t = Some (tok, rest) →
  match_here cls n (t ++ s) = Some (tok, rest ++ s).
Proof.
  revert t tok. induction n as [|n IH]; intros t tok; simpl.
  - by intros [= <- <-].
  - destruct t as [|c t]; [done |]. simpl. destruct (cls c); [| done].
    destruct (match_here cls n t) as [[tok' r]|] eqn:E; [| done].
    intros [= <- <-]. by rewrite (IH _ _ E).
Qed.

Lemma match_here_app_None (cls : N → bool) (n : nat) (t s : str) :
  match_here cls n (t ++ s) = None → match_here cls n t = None.
Proof.
  intros H. destruct (match_here cls n t) as [[tok rest]|] eqn:E; [| done].
  by rewrite (match_here_app _ _ _ s _ _ E) in H.
Qed.

Lemma re_split_from_tokens (p : pattern) (fuel : nat) (sep s : str) :
  (0 < width p)%nat → (length s ≤ fuel)%nat →
  length (re_split_from fuel p sep s)
    = (2 * length (tokens (re_split_from fuel p sep s)) + 1)%nat ∧
  Forall (λ tok, length tok = width p ∧ forallb (cls p) tok = true)
         (tokens (re_split_from fuel p sep s)).
Proof.
  intros Hw. revert sep s. induction fuel as [|fuel IH]; intros sep s Hlen.
  - destruct s; [| simpl in Hlen; lia]. simpl. split; [done | constructor].
  - destruct s as [|c s]; [simpl; split; [done | constructor] |].
    cbn [re_split_from].
    destruct (match_here (cls p) (width p) (c :: s)) as [[tok rest]|] eqn:E.
    + apply match_here_Some in E as (Hs & Hn & Hcls).
      apply (f_equal length) in Hs. rewrite length_app in Hs.
      destruct (IH [] rest) as [Hl Hf]; [simpl in *; lia |].
      cbn [tokens length]. split; [lia | by constructor].
    + apply IH. simpl in Hlen. lia.
Qed.

Lemma re_split_from_no_token (p : pattern) (fuel : nat) (sep s : str) :
  (length s ≤ fuel)%nat →
  (∀ a t, s = a ++ t → t ≠ [] → match_here (cls p) (width p) t = None) →
  re_split_from fuel p sep s = [sep ++ s].
Proof.
  revert fuel sep. induction s as [|c s IH]; intros fuel sep Hlen Hno.
  - destruct fuel; simpl; by rewrite app_nil_r.
  - destruct fuel as [|fuel]; [simpl in Hlen; lia |]. cbn [re_split_from].
    rewrite (Hno [] (c :: s)) by done.
    rewrite IH; [by rewrite <- app_assoc | simpl in Hlen; lia |].
    intros a t -> Ht. by apply (Hno (c :: a) t).
Qed.

Lemma re_split_from_separators (p : pattern) (fuel : nat) (sep s : str) :
  (0 < width p)%nat → (length s ≤ fuel)%nat →
  (∀ a t, sep = a ++ t → t ≠ [] →
          match_here (cls p) (width p) (t ++ s) = None) →
  Forall (λ x, ∀ a t, x = a ++ t → t ≠ [] →
                      match_here (cls p) (width p) t = None)
         (separators (re_split_from fuel p sep s)).
Proof.
  intros Hw. revert sep s. induction fuel as [|fuel IH]; intros sep s Hlen Hinv.
  - destruct s; [| simpl in Hlen; lia]. simpl. repeat constructor.
    intros a t Hsep Ht. specialize (Hinv a t Hsep Ht). by rewrite app_nil_r in Hinv.
  - destruct s as [|c s].
    { simpl. repeat constructor. intros a t Hsep Ht.
      specialize (Hinv a t Hsep Ht). by rewrite app_nil_r in Hinv. }
    cbn [re_split_from].
    destruct (match_here (cls p) (width p) (c :: s)) as [[tok rest]|] eqn:E.
    + cbn [separators]. constructor.
      * intros a t Hsep Ht. eapply match_here_app_None. by apply (Hinv a t).
      * apply match_here_Some in E as (Hs & Hn & _).
        apply (f_equal length) in Hs. rewrite length_app in Hs.
        apply IH; [simpl in *; lia |]. intros a t Hnil Ht.
        by destruct a, t.
    + apply IH; [simpl in Hlen; lia |]. intros a t Hsep Ht.
      destruct (nil_or_last t) as [-> | (t0 & x & ->)]; [done |].
      rewrite app_assoc in Hsep. apply app_inj_tail in Hsep as [-> ->].
      rewrite <- app_assoc. simpl. destruct t0 as [|c0 t0]; [exact E |].
      by apply (Hinv a (c0 :: t0)).
Qed.

(** A split is a separator, a token, a separator, ..., a separator: one
    fragment more than twice the tokens, and every token has the width of
    the pattern and only characters of its class. *)
Theorem tokenizer_alternates (p : pattern) (s : str) :
  (0 < width p)%nat →
  length (re_split p s) = (2 * length (tokens (re_split p s)) + 1)%nat ∧
  Forall (λ tok, length tok = width p ∧ forallb (cls p) tok = true)
         (tokens (re_split p s)).
Proof. intros Hw. by apply re_split_from_tokens. Qed.

Lemma match_here_complete (cls : N → bool) (n : nat) (tok rest : str) :
  length tok = n → forallb cls tok = true →
  match_here cls n (tok ++ rest) = Some (tok, rest).
Proof.
  revert tok. induction n as [|n IH]; intros [|c tok]; simpl; try done.
  intros [= Hn] [Hc Ht]%andb_true_iff. by rewrite Hc, IH.
Qed.

(** No separator of a split holds a token: wherever [width p] characters
    in a row are taken from a separator, one of them is outside the class
    of the pattern. *)
Theorem tokenizer_separators_token_free (p : pattern) (s : str) :
  (0 < width p)%nat →
  Forall (λ sep, ∀ before tok after : str,
            sep = before ++ tok ++ after → length tok = width p →
            forallb (cls p) tok = false)
         (separators (re_split p s)).
Proof.
  intros Hw. eapply Forall_impl.
  - apply (re_split_from_separators p (length s) [] s); [done | done |].
    intros a t Hnil Ht. by destruct a, t.
  - intros sep Hno before tok after Hsep Hlen. apply not_true_iff_false.
    intros Hcls.
    assert (Hne : tok ++ after ≠ [])
      by (destruct tok; [simpl in Hlen; lia | done]).
    specialize (Hno before (tok ++ after) Hsep Hne).
    by rewrite (match_here_complete _ _ tok after Hlen Hcls) in Hno.
Qed.

(** ** Blank byte fields and the block glyph *)

Lemma isspace_not_token (c : N) :
  isspace c = true → is_hex_digit c = false ∧ is_bin_digit c = false.
Proof.
  unfold isspace.
  rewrite !orb_true_iff, !andb_true_iff, !N.leb_le, !N.eqb_eq. intros H.
  split; apply not_true_iff_false.
  - unfold is_hex_digit. rewrite !orb_true_iff, !andb_true_iff, !N.leb_le. lia.
  - unfold is_bin_digit. rewrite !orb_true_iff, !N.eqb_eq. lia.
Qed.

Lemma re_split_no_class (p : pattern) (s : str) :
  (0 < width p)%nat → forallb (λ c, negb (cls p c)) s = true →
  re_split p s = [s].
Proof.
  intros Hw Hs. unfold re_split. rewrite re_split_from_no_token; [done | done |].
  intros a t -> Ht. rewrite forallb_app in Hs.
  apply andb_true_iff in Hs as [_ Hs].
  destruct t as [|c t]; [done |]. simpl in Hs.
  apply andb_true_iff in Hs as [Hc%negb_true_iff _].
  destruct (width p) as [|n]; [lia |]. simpl. by rewrite Hc.
Qed.

Lemma lstrip_all (space : N → bool) (s : str) :
  forallb space s = true → lstrip space s = [].
Proof.
  induction s as [|c s IH]; [done |]. simpl.
  intros [-> Hs]%andb_true_iff. by apply IH.
Qed.

Lemma strip_blank (s : str) : forallb isspace s = true → strip s = [].
Proof. intros H. unfold strip. by rewrite lstrip_all. Qed.

Section Blank.
Variable todecimal : N → option N.

(** A byte field of whitespace only, the empty one among them, has no token
    and comes back from [parse] as it is, in hexadecimal and in binary mode,
    with pixelate on or off. *)
Theorem parse_blank (binary : bool) (r : Z) (pixelate : bool) (s : str) :
  forallb isspace s = true →
  parse todecimal (gradient_instance binary r) s pixelate = Ok s.
Proof.
  intros Hs. unfold parse.
  cbn [gradient_instance attr_regex getattr mbind result_bind].
  rewrite re_split_no_class.
  - cbn [map_result]. unfold map_color at 1. rewrite strip_blank by done.
    cbn [mbind result_bind concat]. by rewrite app_nil_r.
  - destruct binary; simpl; lia.
  - apply forallb_forall. intros c Hc.
    rewrite forallb_forall in Hs. specialize (Hs c Hc).
    apply isspace_not_token in Hs as [Hh Hb].
    destruct binary; simpl; by rewrite ?Hh, ?Hb.
Qed.

Lemma map_color_pixelate_strip (binary : bool) (r : Z) (byte colored rest : str) :
  no_escape byte = true →
  map_color todecimal (gradient_instance binary r) true byte = Ok colored →
  strip_markers (colored ++ rest) = pixelated byte ++ strip_markers rest.
Proof.
  intros Hne. unfold map_color, pixelated. destruct (strip byte) as [|c0 s0].
  - intros [= <-]. by apply strip_markers_plain.
  - cbn [gradient_instance attr_base getattr mbind result_bind].
    intros (n & _ & (v & Ev & Hcol)%bind_Ok)%bind_Ok.
    destruct (color_index_nonneg _ _ _ _ Ev) as (c & -> & Hc).
    apply strip_markers_colorize with (i := c); [lia | done | done].
Qed.

(** With pixelate on, when [parse] returns, its result without the colour
    sequences is the byte field with the block glyph in the place of every
    fragment that is not blank; the blank fragments are as they were. *)
Theorem parse_pixelate (binary : bool) (r : Z) (hex_data out : str) :
  no_escape hex_data = true →
  parse todecimal (gradient_instance binary r) hex_data true = Ok out →
  strip_markers out
  = concat (map pixelated
              (re_split (if binary then regex_bin else regex_hex) hex_data)).
Proof.
  intros Hne. unfold parse.
  cbn [gradient_instance attr_regex getattr mbind result_bind].
  set (regex := if binary then regex_bin else regex_hex).
  assert (Hcat : concat (re_split regex hex_data) = hex_data)
    by (apply re_split_concat; destruct binary; simpl; lia).
  rewrite <- Hcat in Hne. clear Hcat.
  intros (gs & Egs & [= <-])%bind_Ok. revert gs Egs Hne.
  induction (re_split regex hex_data) as [|byte byte_data IH]; intros gs.
  - by intros [= <-] _.
  - cbn [map_result].
    intros (g & Eg & (gs' & Egs & [= <-])%bind_Ok)%bind_Ok Hne.
    cbn [concat map] in *. unfold no_escape in Hne.
    rewrite forallb_app in Hne. apply andb_true_iff in Hne as [Hb Hbs].
    rewrite (map_color_pixelate_strip _ _ _ _ _ Hb Eg). f_equal. by apply IH.
Qed.

End Blank.

(** ** What [int] accepts *)

Lemma lstrip_split (space : N → bool) (s : str) :
  ∃ pre, s = pre ++ lstrip space s ∧ forallb space pre = true.
Proof.
  induction s as [|c s (pre & Hs & Hpre)]; [by exists [] |]. simpl.
  destruct (space c) eqn:Hc; [| by exists []].
  exists (c :: pre). simpl. rewrite Hc, Hpre. split; [by rewrite <- Hs | done].
Qed.

Lemma lstrip_nil (space : N → bool) (s : str) :
  lstrip space s = [] → forallb space s = true.
Proof.
  intros H. destruct (lstrip_split space s) as (pre & Hs & Hpre).
  rewrite H, app_nil_r in Hs. by subst.
Qed.

Lemma lstrip_head (space : N → bool) (s rest : str) (c : N) :
  lstrip space s = c :: rest → space c = false.
Proof.
  induction s as [|d s IH]; [done |]. simpl.
  destruct (space d) eqn:Hd; [done |]. by intros [= <- _].
Qed.

Lemma strip_nil (s : str) : strip s = [] → forallb isspace s = true.
Proof.
  unfold strip, rstrip. intros H.
  apply (f_equal (@rev N)) in H. rewrite rev_involutive in H. simpl in H.
  apply lstrip_nil in H.
  assert (H' : forallb isspace (lstrip isspace s) = true).
  { apply forallb_forall. intros x Hx. rewrite forallb_forall in H.
    apply H. by apply in_rev in Hx. }
  destruct (lstrip isspace s) as [|c rest] eqn:E; [by apply lstrip_nil |].
  apply lstrip_head in E. simpl in H'. by rewrite E in H'.
Qed.

Lemma read_sign_chars (s : str) :
  ∃ pre, s = pre ++ snd (read_sign s) ∧
         forallb (λ c, (c =? 0x2B) || (c =? 0x2D)) pre = true.
Proof.
  destruct s as [|c s]; [by exists [] |].
  destruct (N.eq_dec c 0x2B) as [-> | H1]; [by exists [0x2B] |].
  destruct (N.eq_dec c 0x2D) as [-> | H2]; [by exists [0x2D] |].
  exists []. split; [| done]. simpl.
  destruct c as [|p]; [done |].
  do 6 (destruct p as [p|p|]; try done).
Qed.

Lemma read_base_prefix_chars (base : Z) (s : str) :
  ∃ pre, s = pre ++ read_base_prefix base s ∧
         forallb (λ c, (c =? 0x30) || prefix_letter base c || (c =? UNDERSCORE))
                 pre = true.
Proof.
  assert (Hid : ∃ pre, s = pre ++ s ∧
            forallb (λ c, (c =? 0x30) || prefix_letter base c || (c =? UNDERSCORE))
                    pre = true) by (by exists []).
  destruct s as [|c [|x s]]; [by exists [] | |].
  - destruct (N.eq_dec c 0x30) as [-> | H0]; [by exists [] |].
    replace (read_base_prefix base [c]) with [c]; [done |].
    destruct c as [|p]; [done |]. do 6 (destruct p as [p|p|]; try done).
  - destruct (N.eq_dec c 0x30) as [-> | H0].
    + cbn [read_base_prefix]. fold (prefix_letter base x).
      destruct (prefix_letter base x) eqn:Hx; [| done].
      destruct s as [|u s].
      * exists [0x30; x]. split; [done |].
        cbn [forallb]. rewrite Hx, orb_true_r. reflexivity.
      * destruct (N.eqb_spec u UNDERSCORE) as [-> | Hu].
        -- exists [0x30; x; UNDERSCORE]. split; [done |].
           cbn [forallb]. rewrite Hx.
           change (UNDERSCORE =? UNDERSCORE) with true.
           rewrite !orb_true_r. reflexivity.
        -- exists [0x30; x]. split; [done |].
           cbn [forallb]. rewrite Hx, orb_true_r. reflexivity.
    + replace (read_base_prefix base (c :: x :: s)) with (c :: x :: s); [done |].
      destruct c as [|p]; [done |]. do 6 (destruct p as [p|p|]; try done).
Qed.

Lemma scan_digits_chars (base : Z) (prev_us : bool) (acc : Z) (count : nat)
    (s rest : str) (v : Z) (n : nat) :
  scan_digits base prev_us acc count s = Some (v, n, rest) →
  ∃ ds, s = ds ++ rest ∧
        forallb (λ c, (c =? UNDERSCORE) || (digit_value c <? base)%Z) ds = true.
Proof.
  revert prev_us acc count. induction s as [|c s IH]; intros prev_us acc count.
  - simpl. destruct prev_us; [done |]. intros [= _ _ <-]. by exists [].
  - simpl. destruct (c =? UNDERSCORE) eqn:Hu.
    + destruct prev_us; [done |]. intros (ds & -> & Hds)%IH.
      exists (c :: ds). simpl. by rewrite Hu, Hds.
    + destruct (digit_value c <? base)%Z eqn:Hd.
      * intros (ds & -> & Hds)%IH. exists (c :: ds). simpl.
        by rewrite Hu, Hd, Hds.
      * destruct prev_us; [done |]. intros [= _ _ <-]. by exists [].
Qed.

Lemma forallb_mono (f g : N → bool) (l : str) :
  forallb f l = true → (∀ x, f x = true → g x = true) → forallb g l = true.
Proof.
  intros Hl Hfg. apply forallb_forall. intros x Hx.
  rewrite forallb_forall in Hl. by apply Hfg, Hl.
Qed.

(** A string that [int] reads is made of whitespace, signs, underscores,
    digits of the base and the letter of the prefix. *)
Lemma long_from_string_chars (base : Z) (s : str) (v : Z) :
  long_from_string base s = Some v → forallb (numeral_char base) s = true.
Proof.
  unfold long_from_string.
  destruct (lstrip_split c_isspace s) as (pre1 & Hs1 & Hpre1).
  set (s1 := lstrip c_isspace s) in *.
  destruct (read_sign_chars s1) as (pre2 & Hs2 & Hpre2).
  destruct (read_sign s1) as [sign s2]. simpl in Hs2.
  destruct (read_base_prefix_chars base s2) as (pre3 & Hs3 & Hpre3).
  set (s3 := read_base_prefix base s2) in *.
  destruct s3 as [|c s3'] eqn:E3; [done |].
  destruct (c =? UNDERSCORE); [done |].
  destruct (scan_digits base false 0 0 (c :: s3')) as [[[v' n] rest]|] eqn:Escan;
    [| done].
  apply scan_digits_chars in Escan as (ds & Hds & Hdsb).
  destruct n; [done |].
  destruct (lstrip c_isspace rest) eqn:Erest; [| done]. intros _.
  apply lstrip_nil in Erest.
  rewrite Hs1, Hs2, Hs3, Hds, !forallb_app.
  repeat (apply andb_true_iff; split).
  - apply (forallb_mono _ _ _ Hpre1). intros x Hx. unfold numeral_char.
    by rewrite Hx.
  - apply (forallb_mono _ _ _ Hpre2). intros x Hx. unfold numeral_char.
    apply orb_true_iff in Hx as [-> | ->]; by rewrite ?orb_true_r.
  - apply (forallb_mono _ _ _ Hpre3). intros x Hx. unfold numeral_char.
    apply orb_true_iff in Hx as [[-> | ->]%orb_true_iff | ->];
      by rewrite ?orb_true_r.
  - apply (forallb_mono _ _ _ Hdsb). intros x Hx. unfold numeral_char.
    apply orb_true_iff in Hx as [-> | ->]; by rewrite ?orb_true_r.
  - apply (forallb_mono _ _ _ Erest). intros x Hx. unfold numeral_char.
    by rewrite Hx.
Qed.

Lemma numeral_char_question (base : Z) :
  (base ≤ 36)%Z → numeral_char base 0x3F = false.
Proof.
  intros Hb. unfold numeral_char, prefix_letter.
  change (digit_value 0x3F) with 37%Z.
  destruct (Z.ltb_spec 37 base) as [? | _]; [lia |].
  simpl. by rewrite !andb_false_r.
Qed.

Section Junk.
Variable todecimal : N → option N.

Lemma transform_junk (base : Z) (s : str) (c : N) :
  (base ≤ 36)%Z → In c s → junk base c = true →
  ∃ c', In c' (transform_decimal_and_space todecimal s)
        ∧ numeral_char base c' = false.
Proof.
  intros Hb Hin Hj. unfold junk in Hj.
  apply andb_true_iff in Hj as [[Hlt Hsp]%andb_true_iff Hn%negb_true_iff].
  induction s as [|d s IH]; [done |]. simpl.
  destruct Hin as [-> | Hin].
  - rewrite Hlt. exists c. split; [by left | done].
  - destruct (IH Hin) as (c' & Hc' & Hn').
    destruct (d <? 127); [exists c'; split; [by right | done] |].
    destruct (isspace d); [exists c'; split; [by right | done] |].
    destruct (todecimal d); [exists c'; split; [by right | done] |].
    exists 0x3F. split; [by left | by apply numeral_char_question].
Qed.

(** [int] raises [ValueError] on every string with a junk character. *)
Lemma int_junk (base : Z) (s : str) (c : N) :
  (base ≤ 36)%Z → In c s → junk base c = true →
  int todecimal s base = Raise ValueError.
Proof.
  intros Hb Hin Hj. unfold int.
  destruct (long_from_string base (to_ascii todecimal s)) as [v|] eqn:E; [| done].
  exfalso. apply long_from_string_chars in E. rewrite forallb_forall in E.
  assert (∃ c', In c' (to_ascii todecimal s) ∧ numeral_char base c' = false)
    as (c' & Hc' & Hn').
  { unfold to_ascii. destruct (forallb _ s).
    - exists c. split; [done |]. unfold junk in Hj.
      by apply andb_true_iff in Hj as [_ Hn%negb_true_iff].
    - by apply transform_junk with (c := c). }
  specialize (E c' Hc'). congruence.
Qed.

Lemma map_color_junk (binary : bool) (r : Z) (pixelate : bool)
    (byte : str) (c : N) :
  In c byte → junk (if binary then 2 else 16) c = true →
  map_color todecimal (gradient_instance binary r) pixelate byte
  = Raise ValueError.
Proof.
  intros Hin Hj. unfold map_color.
  destruct (strip byte) as [|c0 s0] eqn:E.
  - apply strip_nil in E. rewrite forallb_forall in E. specialize (E c Hin).
    unfold junk in Hj. rewrite E in Hj. simpl in Hj.
    by rewrite andb_false_r in Hj.
  - cbn [gradient_instance attr_base getattr mbind result_bind].
    rewrite (int_junk _ _ c); [done | destruct binary; lia | done | done].
Qed.

(** The exceptions of the colorizer: [ValueError] from [int],
    [OverflowError] from the floating-point division and [IndexError] from
    the table. *)
Lemma map_color_raises (binary : bool) (r : Z) (pixelate : bool)
    (byte : str) (e : exn) :
  map_color todecimal (gradient_instance binary r) pixelate byte = Raise e →
  e = ValueError ∨ e = IndexError ∨ e = OverflowError.
Proof.
  unfold map_color. destruct (strip byte) as [|c0 s0]; [done |].
  cbn [gradient_instance attr_base getattr mbind result_bind].
  unfold int. destruct (long_from_string _ _) as [n|];
    cbn [mbind result_bind]; [| intros [= <-]; by left].
  change (color_picker (gradient_instance binary r) n)
    with (GradientPalette_color_picker (gradient_instance binary r) n).
  unfold GradientPalette_color_picker.
  destruct (n =? 0)%Z; [done |].
  cbn [gradient_instance attr_palette getattr mbind result_bind].
  unfold float_of_int. destruct (_ <? 53)%Z; cbn [mbind result_bind].
  - unfold deque_getitem. destruct (_ && _); [| intros [= <-]; auto].
    destruct (_ !! _); [done | intros [= <-]; auto].
  - destruct (2 ^ 1024 <=? _)%Z; cbn [mbind result_bind];
      [intros [= <-]; auto |].
    unfold deque_getitem. destruct (_ && _); [| intros [= <-]; auto].
    destruct (_ !! _); [done | intros [= <-]; auto].
Qed.

Lemma map_result_Raise {A B} (f : A → result B) (l : list A) (e : exn) :
  map_result f l = Raise e → ∃ a, In a l ∧ f a = Raise e.
Proof.
  induction l as [|a l IH]; [done |]. cbn [map_result].
  destruct (f a) as [b|e'] eqn:Ea.
  - cbn [mbind result_bind]. destruct (map_result f l) as [bs|e'']; [done |].
    intros [= <-]. destruct (IH eq_refl) as (a' & Ha' & He).
    exists a'. split; [by right | done].
  - intros [= <-]. exists a. split; [by left | done].
Qed.

Lemma map_result_Ok {A B} (f : A → result B) (l : list A) (bs : list B) (a : A) :
  map_result f l = Ok bs → In a l → ∃ b, f a = Ok b.
Proof.
  revert bs. induction l as [|a' l IH]; intros bs; [done |]. cbn [map_result].
  intros (b & Hb & (bs' & Hbs & _)%bind_Ok)%bind_Ok [-> | Hin].
  - by exists b.
  - by apply (IH bs').
Qed.

(** A byte field with a junk character (a colon, a letter after f, ...) is
    not colorized: [parse] raises, whatever else the field holds. The
    exception is [ValueError], or the [IndexError] or [OverflowError] of an
    earlier fragment that reads as a number too large for the table or for
    a floating-point number. *)
Theorem parse_raises_on_junk (binary : bool) (r : Z) (pixelate : bool)
    (hex_data : str) (c : N) :
  In c hex_data → junk (if binary then 2 else 16) c = true →
  ∃ e, parse todecimal (gradient_instance binary r) hex_data pixelate = Raise e
       ∧ (e = ValueError ∨ e = IndexError ∨ e = OverflowError).
Proof.
  intros Hin Hj. unfold parse.
  cbn [gradient_instance attr_regex getattr mbind result_bind].
  set (regex := if binary then regex_bin else regex_hex).
  assert (Hcat : concat (re_split regex hex_data) = hex_data)
    by (apply re_split_concat; destruct binary; simpl; lia).
  rewrite <- Hcat in Hin. apply in_concat in Hin as (byte & Hbyte & Hc).
  destruct (map_result _ (re_split regex hex_data)) as [gs|e] eqn:E.
  - exfalso. destruct (map_result_Ok _ _ _ byte E Hbyte) as [g Hg].
    by rewrite (map_color_junk binary r pixelate byte c) in Hg.
  - exists e. split; [done |].
    apply map_result_Raise in E as (a & _ & Ha).
    by apply map_color_raises in Ha.
Qed.

End Junk.

(** ** Binary mode *)

Lemma is_bin_digit_cases (c : N) : is_bin_digit c = true → c = 48 ∨ c = 49.
Proof. unfold is_bin_digit. rewrite orb_true_iff, !N.eqb_eq. tauto. Qed.

Section BinField.
Variable todecimal : N → option N.

(** A token of eight binary digits is no whitespace and reads, in base 2,
    as a byte. *)
Lemma bin_token_int (c1 c2 c3 c4 c5 c6 c7 c8 : N) :
  forallb is_bin_digit [c1; c2; c3; c4; c5; c6; c7; c8] = true →
  strip [c1; c2; c3; c4; c5; c6; c7; c8] = [c1; c2; c3; c4; c5; c6; c7; c8] ∧
  ∃ byte, int todecimal [c1; c2; c3; c4; c5; c6; c7; c8] 2 = Ok byte
          ∧ (0 ≤ byte ≤ 255)%Z.
Proof.
  cbn [forallb]. rewrite !andb_true_iff.
  intros (H1%is_bin_digit_cases & H2%is_bin_digit_cases & H3%is_bin_digit_cases
          & H4%is_bin_digit_cases & H5%is_bin_digit_cases
          & H6%is_bin_digit_cases & H7%is_bin_digit_cases
          & H8%is_bin_digit_cases & _).
  destruct H1 as [-> | ->], H2 as [-> | ->], H3 as [-> | ->], H4 as [-> | ->],
    H5 as [-> | ->], H6 as [-> | ->], H7 as [-> | ->], H8 as [-> | ->];
    (split; [reflexivity |];
     eexists; split; [reflexivity | vm_compute; split; discriminate]).
Qed.

Lemma re_split_from_bin_field (fuel : nat) (sep s : str) :
  (length s ≤ fuel)%nat → forallb (λ c, c =? 0x20) sep = true →
  bin_field s = true →
  Forall (λ fragment,
            forallb (λ c, c =? 0x20) fragment = true
            ∨ ∃ c1 c2 c3 c4 c5 c6 c7 c8,
                fragment = [c1; c2; c3; c4; c5; c6; c7; c8] ∧
                forallb is_bin_digit fragment = true)
         (re_split_from fuel regex_bin sep s).
Proof.
  revert sep s. induction fuel as [|fuel IH]; intros sep s Hlen Hsep Hs.
  - destruct s; [| simpl in Hlen; lia]. repeat constructor. done.
  - destruct s as [|c s]; [repeat constructor; done |].
    cbn [re_split_from regex_bin cls width]. cbn [bin_field] in Hs.
    destruct (N.eqb_spec c 0x20) as [-> | Hc].
    + cbn [match_here]. change (is_bin_digit 32) with false. cbv iota.
      apply IH; [simpl in Hlen; lia | | done].
      rewrite forallb_app, Hsep. done.
    + destruct s as [|c2 [|c3 [|c4 [|c5 [|c6 [|c7 [|c8 s]]]]]]]; try done.
      apply andb_true_iff in Hs as [Htok Hs].
      pose proof Htok as Htok'. cbn [forallb] in Htok'.
      rewrite !andb_true_iff in Htok'.
      destruct Htok' as (H1 & H2 & H3 & H4 & H5 & H6 & H7 & H8 & _).
      cbn [match_here]. rewrite H1, H2, H3, H4, H5, H6, H7, H8.
      constructor; [by left |].
      constructor; [right; by exists c, c2, c3, c4, c5, c6, c7, c8 |].
      apply IH; [simpl in Hlen; lia | done | done].
Qed.

(** In binary mode, [parse] returns on every byte field made of tokens of
    eight binary digits and of spaces, on every palette that the
    construction in binary mode gives and with pixelate on or off: every
    fragment that is not blank reads in base 2 as a byte. *)
Theorem bin_field_parse_total (r : Z) (pixelate : bool) (self : instance)
    (bin_data : str) :
  construct GradientPalette true r = Ok self →
  bin_field bin_data = true →
  Forall (λ fragment,
            strip fragment ≠ [] →
            ∃ byte, int todecimal fragment 2 = Ok byte ∧ (0 ≤ byte ≤ 255)%Z)
         (re_split regex_bin bin_data) ∧
  ∃ out, parse todecimal self bin_data pixelate = Ok out.
Proof.
  intros [_ ->]%construct_GradientPalette_inv H.
  pose proof (re_split_from_bin_field (length bin_data) [] bin_data
                (le_n _) eq_refl H) as Hfr.
  fold (re_split regex_bin bin_data) in Hfr. split.
  - eapply Forall_impl; [exact Hfr |].
    intros fragment [Hsp | (c1 & c2 & c3 & c4 & c5 & c6 & c7 & c8 & -> & Hb)] Hne.
    + by rewrite strip_spaces in Hne.
    + by destruct (bin_token_int _ _ _ _ _ _ _ _ Hb) as (_ & byte & ? & ?);
        exists byte.
  - destruct (map_result_total
                (map_color todecimal (gradient_instance true r) pixelate)
                (re_split regex_bin bin_data)) as [gs Hgs].
    { eapply Forall_impl; [exact Hfr |].
      intros f [Hsp | (c1 & c2 & c3 & c4 & c5 & c6 & c7 & c8 & -> & Hb)];
        unfold map_color.
      - rewrite strip_spaces by done. by eexists.
      - destruct (bin_token_int _ _ _ _ _ _ _ _ Hb) as (-> & byte & Hint & Hr).
        cbn [gradient_instance attr_base getattr mbind result_bind].
        rewrite Hint. cbn [mbind result_bind].
        destruct (decide (byte = 0%Z)) as [-> | Hnz]; [by eexists |].
        destruct (GradientPalette_color_picker_byte (gradient_instance true r)
                    _ byte eq_refl (rotated_table_length r)
                    ltac:(lia)) as (_ & c & _ & Hp).
        change (color_picker (gradient_instance true r))
          with (GradientPalette_color_picker (gradient_instance true r)).
        rewrite Hp. by eexists. }
    exists (concat gs).
    unfold parse. cbn [gradient_instance attr_regex getattr mbind result_bind].
    by rewrite Hgs.
Qed.

End BinField.

(** A byte field in binary is a byte field of hexadecimal tokens too. *)
Lemma bin_field_hex_field (s : str) : bin_field s = true → hex_field s = true.
Proof.
  remember (length s) as n eqn:Hn. revert s Hn.
  induction n as [n IH] using lt_wf_ind. intros s -> Hs.
  destruct s as [|c s]; [done |]. cbn [bin_field hex_field] in *.
  destruct (c =? 0x20); [by apply (IH (length s)); simpl; try lia |].
  destruct s as [|c2 [|c3 [|c4 [|c5 [|c6 [|c7 [|c8 s]]]]]]]; try done.
  apply andb_true_iff in Hs as [Htok Hs].
  cbn [forallb] in Htok. rewrite !andb_true_iff in Htok.
  destruct Htok as (H1%is_bin_digit_cases & H2%is_bin_digit_cases
                    & H3%is_bin_digit_cases & H4%is_bin_digit_cases
                    & H5%is_bin_digit_cases & H6%is_bin_digit_cases
                    & H7%is_bin_digit_cases & H8%is_bin_digit_cases & _).
  assert (Hrec : hex_field s = true) by (apply (IH (length s)); simpl; try lia; done).
  destruct H1 as [-> | ->], H2 as [-> | ->], H3 as [-> | ->], H4 as [-> | ->],
    H5 as [-> | ->], H6 as [-> | ->], H7 as [-> | ->], H8 as [-> | ->];
    exact Hrec.
Qed.

Lemma bin_field_chars (s : str) :
  bin_field s = true → forallb (λ c, (c =? 0x20) || is_bin_digit c) s = true.
Proof.
  remember (length s) as n eqn:Hn. revert s Hn.
  induction n as [n IH] using lt_wf_ind. intros s -> Hs.
  destruct s as [|c s]; [done |]. cbn [bin_field] in Hs. cbn [forallb].
  destruct (c =? 0x20) eqn:Hc.
  - simpl. by apply (IH (length s)); simpl; try lia.
  - destruct s as [|c2 [|c3 [|c4 [|c5 [|c6 [|c7 [|c8 s]]]]]]]; try done.
    apply andb_true_iff in Hs as [Htok Hs].
    cbn [forallb] in Htok. rewrite !andb_true_iff in Htok.
    destruct Htok as (H1 & H2 & H3 & H4 & H5 & H6 & H7 & H8 & _).
    cbn [forallb]. rewrite H1, H2, H3, H4, H5, H6, H7, H8, !orb_true_r.
    simpl. by apply (IH (length s)); simpl; try lia.
Qed.

Lemma re_split_from_hex_of_bin (fuel : nat) (sep s : str) :
  (length s ≤ fuel)%nat → forallb (λ c, c =? 0x20) sep = true →
  hex_field s = true →
  forallb (λ c, (c =? 0x20) || is_bin_digit c) s = true →
  Forall (λ fragment,
            forallb (λ c, c =? 0x20) fragment = true
            ∨ ∃ c1 c2, fragment = [c1; c2] ∧ is_bin_digit c1 = true
                       ∧ is_bin_digit c2 = true)
         (re_split_from fuel regex_hex sep s).
Proof.
  revert sep s. induction fuel as [|fuel IH]; intros sep s Hlen Hsep Hs Hb.
  - destruct s; [| simpl in Hlen; lia]. repeat constructor. done.
  - destruct s as [|c s]; [repeat constructor; done |].
    cbn [re_split_from regex_hex cls width]. cbn [hex_field] in Hs.
    cbn [forallb] in Hb. apply andb_true_iff in Hb as [Hcb Hb].
    destruct (N.eqb_spec c 0x20) as [-> | Hc].
    + cbn [match_here]. change (is_hex_digit 32) with false. cbv iota.
      apply IH; [simpl in Hlen; lia | | done | done].
      rewrite forallb_app, Hsep. done.
    + destruct s as [|c2 s]; [done |].
      apply andb_true_iff in Hs as [[H1 H2]%andb_true_iff Hs].
      cbn [forallb] in Hb. apply andb_true_iff in Hb as [Hc2b Hb].
      cbn [match_here]. rewrite H1, H2.
      assert (Hb1 : is_bin_digit c = true) by exact Hcb.
      assert (Hb2 : is_bin_digit c2 = true).
      { apply orb_true_iff in Hc2b as [Hsp%N.eqb_eq | ?]; [| done].
        subst c2. by vm_compute in H2. }
      constructor; [by left |]. constructor; [right; by exists c, c2 |].
      apply IH; [simpl in Hlen; lia | done | done | done].
Qed.

Lemma Forall_tokens (P : str → Prop) (fragments : list str) :
  Forall P fragments → Forall P (tokens fragments).
Proof.
  remember (length fragments) as n eqn:Hn. revert fragments Hn.
  induction n as [n IH] using lt_wf_ind. intros fragments -> H.
  destruct fragments as [|sep [|tok rest]]; [constructor | constructor |].
  cbn [tokens]. inversion H as [|? ? _ H']. inversion H' as [|? ? Htok Hrest].
  constructor; [done |]. apply (IH (length rest)); simpl; [lia | done | done].
Qed.

Lemma tokenizer_tokens_hex (s : str) :
  Forall (λ tok, length tok = 2%nat ∧ forallb is_hex_digit tok = true)
         (tokens (re_split regex_hex s)).
Proof.
  by destruct (re_split_from_tokens regex_hex (length s) [] s
                 ltac:(simpl; lia) (le_n _)) as [_ H].
Qed.

Section HexMode.
Variable todecimal : N → option N.

Lemma parse_hex_field_returns (r : Z) (pixelate : bool) (hex_data : str) :
  hex_field hex_data = true →
  ∃ out, parse todecimal (gradient_instance false r) hex_data pixelate = Ok out.
Proof.
  intros H.
  destruct (map_result_total
              (map_color todecimal (gradient_instance false r) pixelate)
              (re_split regex_hex hex_data)) as [gs Hgs].
  { eapply Forall_impl; [by apply re_split_hex_field |]. intros f Hf.
    by apply map_color_fragment_ok. }
  exists (concat gs). unfold parse.
  cbn [gradient_instance attr_regex getattr mbind result_bind].
  by rewrite Hgs.
Qed.

(** [main] builds its palette in hexadecimal mode whatever the options of
    [xxd] are. On the byte field of a dump in binary, the hexadecimal mode
    does not raise; every token of eight binary digits is taken as four
    tokens of two digits, each read as one of the bytes 0, 1, 16 and 17. *)
Theorem binary_dump_in_hex_mode (r : Z) (pixelate : bool) (bin_data : str) :
  bin_field bin_data = true →
  (∃ out,
     parse todecimal (gradient_instance false r) bin_data pixelate = Ok out) ∧
  Forall (λ tok,
            ∃ byte, int todecimal tok 16 = Ok byte ∧
                    (byte = 0 ∨ byte = 1 ∨ byte = 16 ∨ byte = 17)%Z)
         (tokens (re_split regex_hex bin_data)).
Proof.
  intros H. pose proof (bin_field_hex_field _ H) as Hh.
  split; [by apply parse_hex_field_returns |].
  pose proof (re_split_from_hex_of_bin (length bin_data) [] bin_data
                (le_n _) eq_refl Hh (bin_field_chars _ H)) as Hfr.
  fold (re_split regex_hex bin_data) in Hfr.
  apply Forall_tokens in Hfr.
  pose proof (tokenizer_tokens_hex bin_data) as Htok.
  revert Hfr Htok. generalize (tokens (re_split regex_hex bin_data)).
  intros l. induction l as [|tok l IH]; [constructor |].
  intros Hfr Htok. inversion Hfr as [|? ? Hf Hfr']. inversion Htok as [|? ? Ht Htok'].
  subst. constructor; [| by apply IH].
  destruct Hf as [Hsp | (c1 & c2 & -> & [-> | ->]%is_bin_digit_cases
                         & [-> | ->]%is_bin_digit_cases)].
  - destruct Ht as [Hlen Hcls]. destruct tok as [|a [|b [|? ?]]]; try done.
    simpl in Hsp. apply andb_true_iff in Hsp as [->%N.eqb_eq _]. done.
  - exists 0%Z. split; [reflexivity | tauto].
  - exists 1%Z. split; [reflexivity | tauto].
  - exists 16%Z. split; [reflexivity | tauto].
  - exists 17%Z. split; [reflexivity | tauto].
Qed.

End HexMode.

(** ** More on the gradient palette *)

Lemma base_palette_NoDup : NoDup base_palette.
Proof. apply (bool_decide_unpack _). vm_compute. reflexivity. Qed.

(** The rotated table holds the colours of the base table, each once. *)
Theorem rotated_table_same_colours (binary : bool) (r : Z)
    (self : instance) :
  construct GradientPalette binary r = Ok self →
  ∃ table, attr_palette self = Some table ∧
           table ≡ₚ base_palette ∧ NoDup table.
Proof.
  intros [_ ->]%construct_GradientPalette_inv.
  exists (rotated_table r). split; [done |].
  assert (Hp : rotated_table r ≡ₚ base_palette).
  { rewrite rotated_table_rotate. unfold rotate.
    rewrite Permutation_app_comm. by rewrite take_drop. }
  split; [done |]. rewrite Hp. apply base_palette_NoDup.
Qed.

(** Two rotations that the deque accepts give the same palette exactly
    when they differ by a multiple of 31. *)
Theorem rotation_same_palette_iff (binary : bool) (r r' : Z) :
  rotation_ok r = true → rotation_ok r' = true →
  construct GradientPalette binary r = construct GradientPalette binary r'
  ↔ (r `mod` 31 = r' `mod` 31)%Z.
Proof.
  intros Hr Hr'. rewrite !construct_GradientPalette by done. clear Hr Hr'. split.
  - intros [= H].
    assert (H0 : rotated_entry r 0 = rotated_entry r' 0).
    { rewrite <- !rotated_table_lookup by lia. by rewrite H. }
    unfold rotated_entry in H0.
    change (Z.of_nat 0 + r)%Z with r in H0.
    change (Z.of_nat 0 + r')%Z with r' in H0.
    pose proof (Z.mod_pos_bound r 31 ltac:(lia)) as Hr.
    pose proof (Z.mod_pos_bound r' 31 ltac:(lia)) as Hr'.
    destruct (lookup_lt_is_Some_2 base_palette (Z.to_nat (r `mod` 31)))
      as [x Hx]; [simpl; lia |].
    rewrite Hx in H0. symmetry in H0.
    pose proof (NoDup_lookup _ _ _ _ base_palette_NoDup Hx H0). lia.
  - intros H. unfold gradient_instance.
    by rewrite !rotated_table_rotate, H.
Qed.

Lemma quot_256_nonneg (a : Z) :
  (0 ≤ a)%Z → (256 * (a ÷ 256) ≤ a < 256 * (a ÷ 256) + 256)%Z.
Proof.
  intros Ha. rewrite Z.quot_div_nonneg by lia.
  pose proof (Z.div_mod a 256 ltac:(lia)).
  pose proof (Z.mod_pos_bound a 256 ltac:(lia)). lia.
Qed.

Lemma quot_256_neg (a : Z) :
  (a ≤ 0)%Z → (256 * (a ÷ 256) - 256 < a ≤ 256 * (a ÷ 256))%Z.
Proof.
  intros Ha. pose proof (quot_256_nonneg (- a) ltac:(lia)) as H.
  rewrite Z.quot_opp_l in H by lia. lia.
Qed.

Lemma round_half_even_cases (n shift : Z) :
  round_half_even n shift = (n / 2 ^ shift)%Z
  ∨ round_half_even n shift = (n / 2 ^ shift + 1)%Z.
Proof. unfold round_half_even. destruct (_ || _); auto. Qed.

(** The rounded significand of a number of [e + 1] bits. *)
Lemma round_half_even_bounds (n e : Z) :
  (53 ≤ e)%Z → (2 ^ e ≤ n < 2 ^ (e + 1))%Z ->
  (2 ^ 52 ≤ round_half_even n (e - 52) ≤ 2 ^ 53)%Z.
Proof.
  intros He [Hlo Hhi].
  assert (Hp : (0 < 2 ^ (e - 52))%Z) by (apply Z.pow_pos_nonneg; lia).
  assert (He1 : (2 ^ e = 2 ^ 52 * 2 ^ (e - 52))%Z)
    by (rewrite <- Z.pow_add_r by lia; f_equal; lia).
  assert (He2 : (2 ^ (e + 1) = 2 ^ 53 * 2 ^ (e - 52))%Z)
    by (rewrite <- Z.pow_add_r by lia; f_equal; lia).
  assert (Hq : (2 ^ 52 ≤ n / 2 ^ (e - 52) < 2 ^ 53)%Z).
  { split.
    - apply Z.div_le_lower_bound; [assumption |]. rewrite Z.mul_comm. lia.
    - apply Z.div_lt_upper_bound; [assumption |]. rewrite Z.mul_comm. lia. }
  destruct (round_half_even_cases n (e - 52)) as [-> | ->]; lia.
Qed.

(** The conversion of an integer of 54 bits or more: it rounds to a float
    of the same size class, or overflows from 2^1024 - 2^970 on. *)
Lemma float_of_int_large (a : Z) :
  (2 ^ 53 ≤ Z.abs a)%Z ->
  (Z.abs a < float_overflow ∧
   ∃ v, float_of_int a = Ok v ∧ 2 ^ 53 ≤ Z.abs v)%Z
  ∨ (float_overflow ≤ Z.abs a)%Z ∧ float_of_int a = Raise OverflowError.
Proof.
  intros Ha. unfold float_of_int, float_overflow.
  set (n := Z.abs a) in *. set (e := Z.log2 n).
  assert (Hn : (0 < n)%Z) by lia.
  pose proof (Z.log2_spec n Hn) as Hspec. fold e in Hspec.
  assert (He : (53 ≤ e)%Z) by (apply Z.log2_le_pow2; [assumption | lia]).
  destruct (Z.ltb_spec e 53) as [? | _]; [lia |].
  replace (Z.succ e) with (e + 1)%Z in Hspec by lia.
  pose proof (round_half_even_bounds n e He Hspec) as Hm.
  assert (Hp : (0 < 2 ^ (e - 52))%Z) by (apply Z.pow_pos_nonneg; lia).
  assert (He1 : (2 ^ e = 2 ^ 52 * 2 ^ (e - 52))%Z)
    by (rewrite <- Z.pow_add_r by lia; f_equal; lia).
  assert (He2 : (2 ^ (e + 1) = 2 ^ 53 * 2 ^ (e - 52))%Z)
    by (rewrite <- Z.pow_add_r by lia; f_equal; lia).
  assert (Hv : (2 ^ e ≤ round_half_even n (e - 52) * 2 ^ (e - 52)
                ≤ 2 ^ (e + 1))%Z).
  { rewrite He1, He2. split; apply Z.mul_le_mono_nonneg_r; lia. }
  assert (Hsgn : ∀ v, (2 ^ 53 ≤ v → 2 ^ 53 ≤ Z.abs (Z.sgn a * v))%Z).
  { intros v Hv'. rewrite Z.abs_mul.
    assert (Z.abs (Z.sgn a) = 1)%Z as -> by (unfold n in Ha; lia). lia. }
  destruct (Z.lt_trichotomy e 1023) as [Hlt | [Heq | Hgt]].
  - (* below 2^1023: no overflow *)
    assert ((2 ^ (e + 1) ≤ 2 ^ 1023)%Z) by (apply Z.pow_le_mono_r; lia).
    destruct (Z.leb_spec (2 ^ 1024) (round_half_even n (e - 52) * 2 ^ (e - 52)))
      as [? | _]; [lia |].
    left. split; [lia |]. eexists. split; [reflexivity |].
    apply Hsgn. assert ((2 ^ 53 ≤ 2 ^ e)%Z) by (apply Z.pow_le_mono_r; lia). lia.
  - (* 1024 bits: the last binade *)
    rewrite Heq in *. change (1023 - 52)%Z with 971%Z in *.
    change (1023 + 1)%Z with 1024%Z in *.
    pose proof (Z.div_mod n (2 ^ 971) ltac:(lia)) as Hdm.
    pose proof (Z.mod_pos_bound n (2 ^ 971) ltac:(lia)) as Hr.
    assert (Hq : (2 ^ 52 ≤ n / 2 ^ 971 < 2 ^ 53)%Z).
    { split.
      - apply Z.div_le_lower_bound; lia.
      - apply Z.div_lt_upper_bound; lia. }
    revert Hm Hv. unfold round_half_even. change (971 - 1)%Z with 970%Z.
    set (q := (n / 2 ^ 971)%Z) in *. set (r := (n `mod` 2 ^ 971)%Z) in *.
    destruct (Z.ltb_spec (2 ^ 970) r) as [Hgt | Hle];
      [| destruct (Z.eqb_spec r (2 ^ 970)) as [Hreq | Hrne];
         [destruct (Z.odd q) eqn:Hodd |]]; cbn [orb andb]; intros Hm Hv.
    + destruct (Z.leb_spec (2 ^ 1024) ((q + 1) * 2 ^ 971)) as [Hov | Hno].
      * right. split; [lia | reflexivity].
      * left. split; [lia |]. eexists. split; [reflexivity |]. apply Hsgn. lia.
    + destruct (Z.leb_spec (2 ^ 1024) ((q + 1) * 2 ^ 971)) as [Hov | Hno].
      * right. split; [lia | reflexivity].
      * left. split; [lia |]. eexists. split; [reflexivity |]. apply Hsgn. lia.
    + destruct (Z.leb_spec (2 ^ 1024) (q * 2 ^ 971)) as [Hov | Hno]; [lia |].
      left. split.
      * assert (q ≠ 2 ^ 53 - 1)%Z
          by (intros ->; vm_compute in Hodd; discriminate).
        lia.
      * eexists. split; [reflexivity |]. apply Hsgn. lia.
    + destruct (Z.leb_spec (2 ^ 1024) (q * 2 ^ 971)) as [Hov | Hno]; [lia |].
      left. split; [lia |]. eexists. split; [reflexivity |]. apply Hsgn. lia.
  - (* 2^1024 and more: overflow *)
    assert ((2 ^ 1024 ≤ 2 ^ e)%Z) by (apply Z.pow_le_mono_r; lia).
    destruct (Z.leb_spec (2 ^ 1024) (round_half_even n (e - 52) * 2 ^ (e - 52)))
      as [_ | ?]; [| lia].
    right. split; [lia | reflexivity].
Qed.

(** The lookup [table[index]] of the picker for a table of 31 entries. *)
Lemma deque_getitem_31 (table : list Z) (index : Z) :
  length table = 31%nat →
  ((-31 ≤ index ≤ 30)%Z ∧ ∃ c, deque_getitem table index = Ok c)
  ∨ ((index < -31 ∨ 30 < index)%Z ∧ deque_getitem table index = Raise IndexError).
Proof.
  intros Hlen. unfold deque_getitem. rewrite Hlen.
  change (Z.of_nat 31) with 31%Z.
  destruct (Z.ltb_spec index 0) as [Hneg | Hpos].
  - destruct (Z.leb_spec 0 (index + 31)) as [Hge | Hlt]; cbn [andb].
    + destruct (Z.ltb_spec (index + 31) 31) as [_ | ?]; [| lia].
      destruct (lookup_lt_is_Some_2 table (Z.to_nat (index + 31)))
        as [x ->]; [lia |].
      left. split; [lia | by exists x].
    + right. split; [lia | done].
  - destruct (Z.leb_spec 0 index) as [_ | ?]; [| lia].
    destruct (Z.ltb_spec index 31) as [Hlt | Hge]; cbn [andb].
    + destruct (lookup_lt_is_Some_2 table (Z.to_nat index)) as [x ->]; [lia |].
      left. split; [lia | by exists x].
    + right. split; [lia | done].
Qed.

(** The bytes the picker has a colour for: those from -264 to 255, a
    negative byte counting from the end of the table. Any other byte
    raises: [IndexError] while 31 times the byte has a floating-point
    value, that is below 2^1024 - 2^970 in size, and [OverflowError] from
    there on. *)
Theorem gradient_color_picker_domain (binary : bool) (r b : Z)
    (self : instance) :
  construct GradientPalette binary r = Ok self →
  ((-264 ≤ b ≤ 255)%Z ∧
   ∃ c, color_picker self b = Ok (PyInt c) ∧ (c = 59%Z ∨ c ∈ base_palette))
  ∨ ((b < -264 ∨ 255 < b)%Z ∧ (Z.abs (31 * b) < float_overflow)%Z ∧
     color_picker self b = Raise IndexError)
  ∨ ((float_overflow ≤ Z.abs (31 * b))%Z ∧
     color_picker self b = Raise OverflowError).
Proof.
  intros [_ ->]%construct_GradientPalette_inv.
  change (color_picker (gradient_instance binary r) b)
    with (GradientPalette_color_picker (gradient_instance binary r) b).
  assert (Hsmall : (2 ^ 53 < float_overflow)%Z) by (unfold float_overflow; lia).
  destruct (Z.eqb_spec b 0) as [-> | Hb].
  { left. split; [lia |]. exists 59%Z. split; [reflexivity | by left]. }
  assert (Heq : GradientPalette_color_picker (gradient_instance binary r) b
    = (product ← float_of_int (31 * b);
       c ← deque_getitem (rotated_table r) (product ÷ 256); Ok (PyInt c))).
  { unfold GradientPalette_color_picker.
    destruct (Z.eqb_spec b 0) as [? | _]; [done |].
    cbn [gradient_instance attr_palette getattr mbind result_bind].
    by rewrite rotated_table_length. }
  rewrite Heq. clear Heq.
  destruct (Z.lt_ge_cases (Z.abs (31 * b)) (2 ^ 53)) as [Hlt | Hge].
  - rewrite float_of_int_small by done. cbn [mbind result_bind].
    destruct (deque_getitem_31 (rotated_table r) (31 * b ÷ 256)
                (rotated_table_length r)) as [[Hi [c Hc]] | [Hi Hc]];
      rewrite Hc; cbn [mbind result_bind].
    + left. split.
      * destruct (Z.le_gt_cases b 0) as [Hb0 | Hb0].
        -- pose proof (quot_256_neg (31 * b) ltac:(lia)). lia.
        -- pose proof (quot_256_nonneg (31 * b) ltac:(lia)). lia.
      * exists c. split; [done | right].
        by apply deque_getitem_elem, rotated_table_elem in Hc.
    + right. left. split; [| split; [lia | done]].
      destruct (Z.le_gt_cases b 0) as [Hb0 | Hb0].
      * pose proof (quot_256_neg (31 * b) ltac:(lia)). lia.
      * pose proof (quot_256_nonneg (31 * b) ltac:(lia)). lia.
  - assert (Hout : (b < -264 ∨ 255 < b)%Z)
      by (change (2 ^ 53)%Z with 9007199254740992%Z in Hge; lia).
    destruct (float_of_int_large (31 * b) Hge)
      as [[Hno (v & -> & Hv)] | [Hov ->]]; cbn [mbind result_bind].
    + right. left. split; [done |]. split; [done |].
      destruct (deque_getitem_31 (rotated_table r) (v ÷ 256)
                  (rotated_table_length r)) as [[Hi _] | [_ ->]]; [| done].
      exfalso. change (2 ^ 53)%Z with 9007199254740992%Z in Hv.
      destruct (Z.le_gt_cases v 0) as [Hv0 | Hv0].
      * pose proof (quot_256_neg v ltac:(lia)). lia.
      * pose proof (quot_256_nonneg v ltac:(lia)). lia.
    + right. right. by split.
Qed.

(** Every colour of the table is picked: the entry at [i] for the byte
    [256 * i / 31 + 1], which lies from 1 to 255. *)
Theorem gradient_every_colour_picked (binary : bool) (r : Z)
    (self : instance) (table : list Z) (i : nat) :
  construct GradientPalette binary r = Ok self →
  attr_palette self = Some table → (i < 31)%nat →
  ∃ b c, (0 < b ≤ 255)%Z ∧ table !! i = Some c ∧
         color_picker self b = Ok (PyInt c).
Proof.
  intros [_ ->]%construct_GradientPalette_inv [= <-] Hi.
  set (b := (256 * Z.of_nat i / 31 + 1)%Z).
  pose proof (Z.div_mod (256 * Z.of_nat i) 31 ltac:(lia)) as Hdm.
  pose proof (Z.mod_pos_bound (256 * Z.of_nat i) 31 ltac:(lia)) as Hm.
  assert (Hb : (0 < b ≤ 255)%Z).
  { unfold b. split.
    - pose proof (Z.div_pos (256 * Z.of_nat i) 31 ltac:(lia) ltac:(lia)). lia.
    - assert (256 * Z.of_nat i / 31 < 255)%Z; [| lia].
      apply Z.div_lt_upper_bound; lia. }
  destruct (GradientPalette_color_picker_byte (gradient_instance binary r)
              _ b eq_refl (rotated_table_length r) Hb)
    as (_ & c & Hc & Hp).
  exists b, c. split; [done |]. split; [| exact Hp].
  replace i with (Z.to_nat (31 * b / 256)); [done |].
  assert (31 * b / 256 = Z.of_nat i)%Z; [| lia].
  symmetry. apply (Z.div_unique _ _ _ (31 * b - 256 * Z.of_nat i)); unfold b; lia.
Qed.

(** The colours follow the bytes along the table: for two bytes from 1 to
    255 in order, the colour of the second is not before the colour of the
    first in the table, and not further along than the bytes are apart. Two
    bytes next to each other have the same colour or two colours next to
    each other. *)
Theorem gradient_follows_bytes (binary : bool) (r b1 b2 : Z)
    (self : instance) (table : list Z) :
  construct GradientPalette binary r = Ok self →
  attr_palette self = Some table →
  (0 < b1 ≤ b2)%Z → (b2 ≤ 255)%Z →
  ∃ (i1 i2 : nat) c1 c2,
    table !! i1 = Some c1 ∧ table !! i2 = Some c2 ∧
    color_picker self b1 = Ok (PyInt c1) ∧
    color_picker self b2 = Ok (PyInt c2) ∧
    (i1 ≤ i2)%nat ∧ (Z.of_nat i2 - Z.of_nat i1 ≤ b2 - b1)%Z.
Proof.
  intros [_ ->]%construct_GradientPalette_inv [= <-] H1 H2.
  destruct (GradientPalette_color_picker_byte (gradient_instance binary r)
              _ b1 eq_refl (rotated_table_length r) ltac:(lia))
    as (Hi1 & c1 & Hc1 & Hp1).
  destruct (GradientPalette_color_picker_byte (gradient_instance binary r)
              _ b2 eq_refl (rotated_table_length r) ltac:(lia))
    as (Hi2 & c2 & Hc2 & Hp2).
  exists (Z.to_nat (31 * b1 / 256)), (Z.to_nat (31 * b2 / 256)), c1, c2.
  repeat (split; [done |]).
  pose proof (Z.div_mod (31 * b1) 256 ltac:(lia)).
  pose proof (Z.mod_pos_bound (31 * b1) 256 ltac:(lia)).
  pose proof (Z.div_mod (31 * b2) 256 ltac:(lia)).
  pose proof (Z.mod_pos_bound (31 * b2) 256 ltac:(lia)).
  split; [| rewrite !Z2Nat.id by lia]; lia.
Qed.

(** ** [AsciiPalette.color_picker] and [colorize] *)

(** [colorize(s, self.color_picker(byte))] with the picker of
    [AsciiPalette]: every branch for a printable character, the newline and
    the carriage return gives [None], which [colorize] cannot format, so the
    call raises [TypeError]; every other byte gets the null colour. *)
Theorem AsciiPalette_colorize (self : instance) (byte : Z) (s : str) :
  (index ← AsciiPalette_color_picker self byte; colorize s index)
  = if no_colour_byte byte then Raise TypeError
    else colorize s (PyInt null_color).
Proof.
  unfold AsciiPalette_color_picker, no_colour_byte.
  destruct ((0x20 <=? byte)%Z && (byte <? 0x7F)%Z).
  - by destruct (chr_isalpha byte), (chr_isdigit byte), (byte =? 0x20)%Z,
      (byte =? 0x09)%Z.
  - by destruct (byte =? 0x0A)%Z, (byte =? 0x0D)%Z.
Qed.

(** Removing the colour sequences undoes [colorize]: for a colour index
    that is not negative and a text without escape characters, the result
    of [colorize] without its colour sequences is the text. The result is
    the text, the digits of the index and twelve more characters long. *)
Theorem colorize_strip_markers (s : str) (i : Z) :
  (0 ≤ i)%Z → no_escape s = true →
  ∃ colored,
    colorize s (PyInt i) = Ok colored ∧
    strip_markers colored = s ∧
    length colored = (length s + length (format_d i) + 12)%nat.
Proof.
  intros Hi Hs. eexists. split; [reflexivity |]. split.
  - rewrite <- (app_nil_r (_ ++ _)).
    rewrite (strip_markers_colorize s [] _ i Hi Hs eq_refl).
    by rewrite strip_markers_nil, app_nil_r.
  - rewrite !length_app. simpl. lia.
Qed.

(** ** The columns of a record line *)

Lemma contains_false_cons (sep s : str) (c : N) :
  contains sep (c :: s) = false →
  strip_prefix sep (c :: s) = None ∧ contains sep s = false.
Proof.
  cbn [contains]. destruct (strip_prefix sep (c :: s)); [done |]. by split.
Qed.

Lemma find_first_two (x y : N) (a b : str) :
  contains [x; y] (a ++ [x]) = false →
  find_first [x; y] (a ++ [x; y] ++ b) = Some (a, b).
Proof.
  induction a as [|c a IH]; intros H.
  - cbn [app find_first strip_prefix]. by rewrite !N.eqb_refl.
  - rewrite <- app_comm_cons in H. apply contains_false_cons in H as [Hp Hc].
    rewrite <- app_comm_cons. cbn [find_first].
    assert (strip_prefix [x; y] (c :: a ++ [x; y] ++ b) = None) as ->.
    { clear IH Hc. cbn [strip_prefix] in *. destruct (x =? c); [| done].
      destruct a as [|d a]; cbn [app] in *; by destruct (y =? _). }
    by rewrite (IH Hc).
Qed.

Lemma contains_address_separator_colon (a : str) :
  contains address_separator a = false →
  contains address_separator (a ++ [0x3A]) = false.
Proof.
  induction a as [|c a IH]; [done |]. intros [Hp Hc]%contains_false_cons.
  rewrite <- app_comm_cons. cbn [contains].
  assert (strip_prefix address_separator (c :: a ++ [0x3A]) = None) as ->.
  { clear IH Hc. unfold address_separator in *. cbn [strip_prefix] in *.
    destruct (0x3A =? c); [| done].
    destruct a as [|d a]; cbn [app] in *; [reflexivity |].
    by destruct (0x20 =? d). }
  by apply IH.
Qed.

(** The two splits of [format_line] find the columns a record line was
    made of, whatever the text column holds (separators too), when the
    address does not hold the address separator and the byte field neither
    holds two spaces in a row nor ends in a space. *)
Theorem columns_of_record_line (address hex_data ascii_data : str) :
  contains address_separator address = false →
  contains hex_separator (hex_data ++ [0x20]) = false →
  columns (record_line address hex_data ascii_data)
  = Some (address, hex_data, ascii_data).
Proof.
  intros Ha Hh. unfold columns, split1, record_line.
  unfold address_separator at 2.
  rewrite (find_first_two 0x3A 0x20)
    by (by apply contains_address_separator_colon).
  unfold hex_separator at 3. by rewrite (find_first_two 0x20 0x20).
Qed.

(** ** The loop of [main] *)

Lemma main_loop_Ok (colorizer : str → result str) (lines outs : list str)
    (stdout : str) :
  map_result (λ line, format_line line colorizer) lines = Ok outs →
  main_loop colorizer lines stdout = (stdout ++ printed outs, Ok tt)
  ∧ length outs = length lines.
Proof.
  revert outs stdout. induction lines as [|line lines IH]; intros outs stdout.
  - intros [= <-]. unfold printed. simpl. by rewrite app_nil_r.
  - cbn [map_result main_loop].
    intros (out & Hout & (outs' & Houts & [= <-])%bind_Ok)%bind_Ok.
    rewrite Hout. destruct (IH outs' (print stdout out) Houts) as [-> Hlen].
    split; [| simpl; by rewrite Hlen]. unfold print, printed. cbn [map concat].
    by rewrite <- !app_assoc.
Qed.

(** When [format_line] returns for every line, the loop prints every
    result with a newline after it, in the order of the lines, one result
    for every line, and ends without an exception. *)
Theorem main_loop_prints_all (colorizer : str → result str)
    (lines outs : list str) (stdout : str) :
  map_result (λ line, format_line line colorizer) lines = Ok outs →
  main_loop colorizer lines stdout = (stdout ++ printed outs, Ok tt)
  ∧ length outs = length lines.
Proof. apply main_loop_Ok. Qed.

(** The loop ends at the first line for which [format_line] raises, with
    that exception: the results of the lines before it are printed, nothing
    of that line or of a later one is. *)
Theorem main_loop_stops_at_first_error (colorizer : str → result str)
    (good rest outs : list str) (bad stdout : str) (e : exn) :
  map_result (λ line, format_line line colorizer) good = Ok outs →
  format_line bad colorizer = Raise e →
  main_loop colorizer (good ++ bad :: rest) stdout
  = (stdout ++ printed outs, Raise e).
Proof.
  revert outs stdout. induction good as [|line good IH]; intros outs stdout.
  - intros [= <-] Hbad. cbn [app main_loop]. rewrite Hbad.
    unfold printed. simpl. by rewrite app_nil_r.
  - cbn [map_result].
    intros (out & Hout & (outs' & Houts & [= <-])%bind_Ok)%bind_Ok Hbad.
    rewrite <- app_comm_cons. cbn [main_loop]. rewrite Hout.
    rewrite (IH outs' (print stdout out) Houts Hbad).
    unfold print, printed. cbn [map concat]. by rewrite <- !app_assoc.
Qed.

Section Main.
Variable todecimal : N → option N.


End Main.

(** ** The further properties at concrete inputs *)

Lemma tokenizer_alternates_witness :
  (0 < width regex_hex)%nat ∧
  length (re_split regex_hex (lit " 4865 6c "))
  = (2 * length (tokens (re_split regex_hex (lit " 4865 6c "))) + 1)%nat ∧
  Forall (λ tok, length tok = width regex_hex
                 ∧ forallb (cls regex_hex) tok = true)
         (tokens (re_split regex_hex (lit " 4865 6c "))).
Proof.
  split; [simpl; lia |].
  apply (tokenizer_alternates regex_hex (lit " 4865 6c ")). simpl. lia.
Defined.

Lemma tokenizer_separators_token_free_witness :
  (0 < width regex_bin)%nat ∧
  Forall (λ sep, ∀ before tok after : str,
            sep = before ++ tok ++ after → length tok = width regex_bin →
            forallb (cls regex_bin) tok = false)
         (separators (re_split regex_bin (lit "0101 01010101 111"))).
Proof.
  split; [simpl; lia |].
  apply (tokenizer_separators_token_free regex_bin (lit "0101 01010101 111")).
  simpl. lia.
Defined.

Lemma parse_blank_witness :
  forallb isspace (lit "   ") = true ∧
  parse no_decimal (gradient_instance false 0) (lit "   ") true = Ok (lit "   ").
Proof. split; [reflexivity | by apply parse_blank]. Defined.

Lemma parse_pixelate_witness :
  ∃ out,
    parse no_decimal (gradient_instance false 0) (lit "48 65") true = Ok out ∧
    strip_markers out = pixel_char ++ lit " " ++ pixel_char.
Proof.
  destruct (parse no_decimal (gradient_instance false 0) (lit "48 65") true)
    as [out|e] eqn:E; [| vm_compute in E; discriminate].
  exists out. split; [reflexivity |].
  etrans; [exact (parse_pixelate no_decimal false 0 (lit "48 65") out eq_refl E) |].
  reflexivity.
Defined.

Lemma parse_raises_on_junk_witness :
  In 0x3A (lit "48:65") ∧ junk 16 0x3A = true ∧
  ∃ e, parse no_decimal (gradient_instance false 0) (lit "48:65") false = Raise e
       ∧ (e = ValueError ∨ e = IndexError ∨ e = OverflowError).
Proof.
  assert (Hin : In 0x3A (lit "48:65")) by (do 2 right; left; reflexivity).
  split; [exact Hin |]. split; [reflexivity |].
  exact (parse_raises_on_junk no_decimal false 0 false (lit "48:65") 0x3A
           Hin eq_refl).
Defined.

Lemma bin_field_parse_total_witness :
  construct GradientPalette true 0 = Ok (gradient_instance true 0) ∧
  bin_field (lit " 01001000 01100101 ") = true ∧
  ∃ out,
    parse no_decimal (gradient_instance true 0) (lit " 01001000 01100101 ") false
    = Ok out.
Proof.
  split; [reflexivity |]. split; [reflexivity |].
  by destruct (bin_field_parse_total no_decimal 0 false (gradient_instance true 0)
                 (lit " 01001000 01100101 ") eq_refl eq_refl) as [_ H].
Defined.

Lemma binary_dump_in_hex_mode_witness :
  bin_field (lit "01001000 01100101") = true ∧
  (∃ out,
     parse no_decimal (gradient_instance false 0) (lit "01001000 01100101") false
     = Ok out) ∧
  length (tokens (re_split regex_hex (lit "01001000 01100101"))) = 8%nat.
Proof.
  split; [reflexivity |].
  destruct (binary_dump_in_hex_mode no_decimal 0 false
              (lit "01001000 01100101") eq_refl) as [H _].
  split; [exact H | reflexivity].
Defined.

Lemma rotated_table_same_colours_witness :
  ∃ self table,
    construct GradientPalette false 7 = Ok self ∧
    attr_palette self = Some table ∧ table ≡ₚ base_palette ∧ NoDup table.
Proof.
  exists (gradient_instance false 7).
  destruct (rotated_table_same_colours false 7 (gradient_instance false 7) eq_refl)
    as (table & Ht & Hp & Hn).
  exists table. split; [reflexivity |]. split; [exact Ht |]. by split.
Defined.

Lemma rotation_same_palette_iff_witness :
  rotation_ok 3 = true ∧ rotation_ok 34 = true ∧
  (3 `mod` 31 = 34 `mod` 31)%Z ∧
  construct GradientPalette false 3 = construct GradientPalette false 34.
Proof.
  split; [reflexivity |]. split; [reflexivity |]. split; [reflexivity |].
  apply (proj2 (rotation_same_palette_iff false 3 34 eq_refl eq_refl)).
  reflexivity.
Defined.

Lemma gradient_color_picker_domain_witness :
  construct GradientPalette false 0 = Ok (gradient_instance false 0) ∧
  (∃ c, color_picker (gradient_instance false 0) (-15) = Ok (PyInt c)
        ∧ (c = 59%Z ∨ c ∈ base_palette)) ∧
  color_picker (gradient_instance false 0) 300 = Raise IndexError ∧
  color_picker (gradient_instance false 0) (2 ^ 1020) = Raise OverflowError.
Proof.
  split; [reflexivity |]. split; [| split].
  - destruct (gradient_color_picker_domain false 0 (-15)
                (gradient_instance false 0) eq_refl)
      as [[_ H] | [[H _] | [H _]]]; [exact H | lia |].
    unfold float_overflow in H. lia.
  - destruct (gradient_color_picker_domain false 0 300
                (gradient_instance false 0) eq_refl)
      as [[H _] | [(_ & _ & H) | [H _]]]; [lia | exact H |].
    unfold float_overflow in H. lia.
  - destruct (gradient_color_picker_domain false 0 (2 ^ 1020)
                (gradient_instance false 0) eq_refl)
      as [[H _] | [(_ & H & _) | [_ H]]]; [lia | | exact H].
    unfold float_overflow in H. lia.
Defined.

Lemma gradient_every_colour_picked_witness :
  (30 < 31)%nat ∧
  ∃ b c, (0 < b ≤ 255)%Z ∧ rotated_table 4 !! 30%nat = Some c ∧
         color_picker (gradient_instance false 4) b = Ok (PyInt c).
Proof.
  split; [lia |].
  apply (gradient_every_colour_picked false 4 (gradient_instance false 4)
           (rotated_table 4) 30); [reflexivity | reflexivity | lia].
Defined.

Lemma gradient_follows_bytes_witness :
  (0 < 100 ≤ 101)%Z ∧ (101 ≤ 255)%Z ∧
  ∃ (i1 i2 : nat) c1 c2,
    rotated_table 0 !! i1 = Some c1 ∧
    rotated_table 0 !! i2 = Some c2 ∧
    color_picker (gradient_instance false 0) 100 = Ok (PyInt c1) ∧
    color_picker (gradient_instance false 0) 101 = Ok (PyInt c2) ∧
    (i1 ≤ i2)%nat ∧ (Z.of_nat i2 - Z.of_nat i1 ≤ 101 - 100)%Z.
Proof.
  split; [lia |]. split; [lia |].
  apply (gradient_follows_bytes false 0 100 101 (gradient_instance false 0)
           (rotated_table 0)); [reflexivity | reflexivity | lia | lia].
Defined.

Lemma colorize_strip_markers_witness :
  (0 ≤ 227)%Z ∧ no_escape (lit "48") = true ∧
  ∃ colored,
    colorize (lit "48") (PyInt 227) = Ok colored ∧
    strip_markers colored = lit "48" ∧
    length colored = (length (lit "48") + length (format_d 227) + 12)%nat.
Proof.
  split; [lia |]. split; [reflexivity |].
  apply (colorize_strip_markers (lit "48") 227); [lia | reflexivity].
Defined.

Lemma columns_of_record_line_witness :
  contains address_separator (lit "00000010") = false ∧
  contains hex_separator (lit "3a20 2020" ++ [0x20]) = false ∧
  columns (record_line (lit "00000010") (lit "3a20 2020") (lit ": x  y" ++ [LF]))
  = Some (lit "00000010", lit "3a20 2020", lit ": x  y" ++ [LF]).
Proof.
  split; [reflexivity |]. split; [reflexivity |].
  apply columns_of_record_line; reflexivity.
Defined.

Lemma main_loop_prints_all_witness :
  map_result (λ line, format_line line (λ h, Ok h))
             [lit "0: 41  A" ++ [LF]; lit "*" ++ [LF]]
  = Ok [lit "0: 41  A"; lit "*" ++ [LF]] ∧
  main_loop (λ h, Ok h) [lit "0: 41  A" ++ [LF]; lit "*" ++ [LF]] []
  = (printed [lit "0: 41  A"; lit "*" ++ [LF]], Ok tt).
Proof.
  split; [reflexivity |].
  by destruct (main_loop_prints_all (λ h, Ok h)
                 [lit "0: 41  A" ++ [LF]; lit "*" ++ [LF]]
                 [lit "0: 41  A"; lit "*" ++ [LF]] [] eq_refl) as [H _].
Defined.

Lemma main_loop_stops_at_first_error_witness :
  format_line (lit "no columns" ++ [LF]) (λ h, Ok h) = Raise ValueError ∧
  main_loop (λ h, Ok h)
    ([lit "0: 41  A" ++ [LF]] ++ (lit "no columns" ++ [LF])
     :: [lit "1: 42  B" ++ [LF]]) []
  = (printed [lit "0: 41  A"], Raise ValueError).
Proof.
  split; [reflexivity |].
  exact (main_loop_stops_at_first_error (λ h, Ok h)
           [lit "0: 41  A" ++ [LF]] [lit "1: 42  B" ++ [LF]]
           [lit "0: 41  A"] (lit "no columns" ++ [LF]) [] ValueError
           eq_refl eq_refl).
Defined.

